(** * Server酱³ Bot channel plugin: inbound-update ingestion

    A shallow embedding of the inbound path of the plugin
    ([src/api.ts] and [src/channel.ts]): the webhook payload parser and
    secret check, the process-wide webhook registry with its target
    selection, the account listing, the mode decision of [startAccount]
    and the long-poll loop, followed by the properties the specification
    states about them. *)

From Stdlib Require Import ZArith Ascii String List Bool Lia.
From stdpp Require Import base option list strings gmap fin_maps pretty.

Set Warnings "-register-all".

Local Open Scope string_scope.
Local Open Scope Z_scope.

(** ** JavaScript values and string primitives *)

Module Js.

(** Strings are sequences of code units below 256.  Among those the
    ECMAScript [WhiteSpace] and [LineTerminator] code points, stripped
    by [String.prototype.trim], are TAB, LF, VT, FF, CR, SP and NBSP. *)
Definition is_white_space (c : ascii) : bool :=
  let n := nat_of_ascii c in
  ((9 <=? n)%nat && (n <=? 13)%nat) || (n =? 32)%nat || (n =? 160)%nat.

Fixpoint trimStart (s : string) : string :=
  match s with
  | EmptyString => EmptyString
  | String c s' => if is_white_space c then trimStart s' else s
  end.

Definition trimEnd (s : string) : string :=
  String.rev (trimStart (String.rev s)).

Definition trim (s : string) : string := trimEnd (trimStart s).

(** [s.startsWith(p)] and [s.endsWith(p)]. *)
Definition startsWith (s p : string) : bool := String.prefix p s.

Definition endsWith (s p : string) : bool :=
  String.prefix (String.rev p) (String.rev s).

(** [s.slice(0, -1)]: everything but the last code unit. *)
Definition slice_0_m1 (s : string) : string :=
  String.substring 0 (String.length s - 1) s.

(** Truthiness of a string: the empty string is the only falsy one. *)
Definition truthy_string (s : string) : bool :=
  negb (String.eqb s "").

(** A value as [JSON.parse] produces it, plus [undefined].  An object
    lists its own keys in the order [Object.keys] enumerates them.
    Numbers are the integer-valued ones: the identifiers and
    timestamps of the bot API.  The model of arithmetic and of printing
    is exact on the safe integers (see [MAX_SAFE_INTEGER]). *)
Inductive value : Type :=
| JUndef
| JNull
| JBool (b : bool)
| JNum (n : Z)
| JStr (s : string)
| JArr (elems : list value)
| JObj (props : list (string * value)).

Inductive type_tag : Type :=
| TUndefined | TObject | TBoolean | TNumber | TString.

#[global] Instance type_tag_eq_dec : EqDecision type_tag.
Proof. solve_decision. Defined.

Definition typeof (v : value) : type_tag :=
  match v with
  | JUndef => TUndefined
  | JNull | JArr _ | JObj _ => TObject
  | JBool _ => TBoolean
  | JNum _ => TNumber
  | JStr _ => TString
  end.

Definition truthy (v : value) : bool :=
  match v with
  | JUndef | JNull => false
  | JBool b => b
  | JNum n => negb (n =? 0)
  | JStr s => truthy_string s
  | JArr _ | JObj _ => true
  end.

Fixpoint assoc (k : string) (props : list (string * value)) : value :=
  match props with
  | [] => JUndef
  | (k', v) :: rest => if String.eqb k k' then v else assoc k rest
  end.

(** [v.k] for the property names the plugin reads (none of them an
    array index or ["length"]): only an object can own one.  Every read
    in the source is guarded against [null] and [undefined] receivers,
    so the [TypeError] case never arises and is folded into [JUndef]. *)
Definition get (k : string) (v : value) : value :=
  match v with
  | JObj props => assoc k props
  | _ => JUndef
  end.

(** [a ?? b]. *)
Definition nullish (a b : value) : value :=
  match a with
  | JUndef | JNull => b
  | _ => a
  end.

Definition is_nullish (v : value) : bool :=
  match v with
  | JUndef | JNull => true
  | _ => false
  end.

Definition of_number (o : option Z) : value :=
  match o with
  | Some n => JNum n
  | None => JUndef
  end.

Fixpoint join (sep : string) (l : list string) : string :=
  match l with
  | [] => ""
  | [s] => s
  | s :: rest => s ++ sep ++ join sep rest
  end.

(** [String(v)]; a safe integer prints as its exact decimal numeral. *)
Fixpoint to_String (v : value) : string :=
  match v with
  | JUndef => "undefined"
  | JNull => "null"
  | JBool true => "true"
  | JBool false => "false"
  | JNum n => pretty n
  | JStr s => s
  | JArr elems =>
      join "," (List.map (fun e => if is_nullish e then "" else to_String e) elems)
  | JObj _ => "[object Object]"
  end.

(** [Object.keys(v)] of a value whose [typeof] is ["object"] and that
    is not [null]: an array enumerates its indices. *)
Definition keys (v : value) : list string :=
  match v with
  | JObj props => List.map fst props
  | JArr elems => List.map (fun i : nat => pretty i) (seq 0 (List.length elems))
  | _ => []
  end.

(** [JSON.parse(JSON.stringify(v))] below the top level: a property
    whose value is [undefined] is dropped, an [undefined] array element
    comes back as [null], everything else is rebuilt as it was. *)
Definition strip_with (f : value -> value)
  : list (string * value) -> list (string * value) :=
  fix go props :=
    match props with
    | [] => []
    | (k, JUndef) :: rest => go rest
    | (k, x) :: rest => (k, f x) :: go rest
    end.

Fixpoint reparse (v : value) : value :=
  match v with
  | JArr elems =>
      JArr (List.map (fun e => match e with JUndef => JNull | _ => reparse e end) elems)
  | JObj props => JObj (strip_with reparse props)
  | _ => v
  end.

(** At the top level [JSON.stringify(undefined)] is [undefined], which
    [JSON.parse] rejects. *)
Definition JSON_roundtrip (v : value) : option value :=
  match v with
  | JUndef => None
  | _ => Some (reparse v)
  end.

(** [s.toLowerCase()]: the letters A-Z and, above 127, the capitals
    U+00C0-U+00DE other than the multiplication sign U+00D7. *)
Definition lower_ascii (c : ascii) : ascii :=
  let n := nat_of_ascii c in
  if ((65 <=? n)%nat && (n <=? 90)%nat)
     || ((192 <=? n)%nat && (n <=? 222)%nat && negb (n =? 215)%nat)
  then ascii_of_nat (n + 32)
  else c.

Fixpoint toLowerCase (s : string) : string :=
  match s with
  | EmptyString => EmptyString
  | String c s' => String (lower_ascii c) (toLowerCase s')
  end.

(** [/\d/]: the decimal digits. *)
Definition is_digit (c : ascii) : bool :=
  let n := nat_of_ascii c in (48 <=? n)%nat && (n <=? 57)%nat.

Definition digit_value (c : ascii) : Z := Z.of_nat (nat_of_ascii c) - 48.

(** The value of the longest prefix of decimal digits, continuing
    [acc]. *)
Fixpoint digits_value (acc : Z) (s : string) : Z :=
  match s with
  | EmptyString => acc
  | String c rest =>
      if is_digit c then digits_value (acc * 10 + digit_value c) rest else acc
  end.

(** [Number.parseInt(s, 10)]: leading white space is skipped, a sign is
    read, then the longest run of digits; [None] is [NaN] (no digit
    found).  What follows the digits is ignored. *)
Definition parseInt (s : string) : option Z :=
  let s := trimStart s in
  let '(sign, s) :=
    match s with
    | String "-" rest => (-1, rest)
    | String "+" rest => (1, rest)
    | _ => (1, s)
    end in
  match s with
  | String c _ => if is_digit c then Some (sign * digits_value 0 s) else None
  | EmptyString => None
  end.

(** [Number.MAX_SAFE_INTEGER]: up to it every integer is a number of
    its own, so [String] and [parseInt] are exact. *)
Definition MAX_SAFE_INTEGER : Z := 2 ^ 53 - 1.

(** [Number.isSafeInteger(n)]. *)
Definition safe_integer (n : Z) : bool := Z.abs n <=? MAX_SAFE_INTEGER.


(** [s.slice(n)] for [n] within the string. *)
Definition drop_chars (n : nat) (s : string) : string :=
  String.substring n (String.length s - n) s.

End Js.

(** ** [src/api.ts]: transport client *)

Module Api.
Import Js.

Record ServerChanMessage : Type := {
  message_id : Z;
  chat_id : option Z;
  (* [chat] and [from] are passed along as received, unvalidated *)
  chat : option value;
  from : option value;
  text : string;
  date : option Z;
}.

Record ServerChanUpdate : Type := {
  update_id : Z;
  message : ServerChanMessage;
}.

Record ServerChanUpdatesResponse : Type := {
  ok : bool;
  result : list ServerChanUpdate;
  error : option string;
}.

(** The value of a request header: [string | string[]]; an absent
    key reads as [undefined]. *)
Inductive header_value : Type :=
| HStr (s : string)
| HArr (l : list string).

(** [parseWebhookPayload(body)]; [None] is [null]. *)
Definition parseWebhookPayload (body : value) : option ServerChanUpdate :=
  if negb (truthy body) || negb (bool_decide (typeof body = TObject)) then None
  else
    let payload := body in
    match get "ok" payload with
    | JBool true =>
        let updateId := get "update_id" payload in
        let message := get "message" payload in
        match updateId with
        | JNum updateId =>
            if negb (truthy message) || negb (bool_decide (typeof message = TObject))
            then None
            else
              let msg := message in
              let messageId := get "message_id" msg in
              let text := get "text" msg in
              let rawChatId := get "chat_id" msg in
              let chat := get "chat" msg in
              let chat_is_object :=
                truthy chat && bool_decide (typeof chat = TObject) in
              let chatId :=
                match rawChatId with
                | JNum _ => rawChatId
                | _ => if chat_is_object then get "id" chat else JUndef
                end in
              match messageId, chatId, text with
              | JNum messageId, JNum chatId, JStr text =>
                  Some {| update_id := updateId;
                          message := {|
                            message_id := messageId;
                            chat_id := Some chatId;
                            chat := if chat_is_object then Some chat else None;
                            from := None;
                            text := text;
                            date := match get "date" msg with
                                    | JNum d => Some d
                                    | _ => None
                                    end |} |}
              | _, _, _ => None
              end
        | _ => None
        end
    | _ => None
    end.

Definition HEADER_LOWER : string := "x-sc3bot-webhook-secret".
Definition HEADER_MIXED : string := "X-Sc3Bot-Webhook-Secret".

(** [Array.isArray(secret) ? secret[0] : secret]. *)
Definition first_value (v : header_value) : option string :=
  match v with
  | HArr l => head l
  | HStr s => Some s
  end.

(** The [secretValue] of [verifyWebhookSecret]: the header under the
    lower-case name, else under the mixed-case one. *)
Definition secretValue (headers : gmap string header_value) : option string :=
  let secret :=
    match headers !! HEADER_LOWER with
    | Some v => Some v
    | None => headers !! HEADER_MIXED
    end in
  match secret with
  | Some v => first_value v
  | None => None
  end.

Definition verifyWebhookSecret
    (headers : gmap string header_value) (expectedSecret : string) : bool :=
  bool_decide (secretValue headers = Some expectedSecret).

(** What [fetch] does with the [getUpdates] request: it rejects
    (network failure) or resolves to a response, whose [json()] then
    yields the body or rejects ([None]). *)
Inductive FetchOutcome : Type :=
| FetchRejects (reason : string)
| FetchResolves (status : Z) (statusText : string)
                (json : option ServerChanUpdatesResponse).

(** [response.ok]: the status is in the range 200-299. *)
Definition response_ok (status : Z) : bool :=
  (200 <=? status) && (status <=? 299).

(** [serverChanBotGetUpdates]: [inl] is a thrown error, [inr] the
    returned response. *)
Definition serverChanBotGetUpdates
    (outcome : FetchOutcome) : string + ServerChanUpdatesResponse :=
  match outcome with
  | FetchRejects reason => inl reason
  | FetchResolves status statusText json =>
      if negb (response_ok status)
      then inr {| ok := false;
                  result := [];
                  error := Some ("HTTP " ++ pretty status ++ ": " ++ statusText) |}
      else
        match json with
        | Some body => inr body
        | None => inl "invalid json"
        end
  end.

Record SendMessageOptions : Type := {
  parseMode : option string;
  silent : option bool;
}.

(** The JSON text [serverChanBotSendMessage] posts, as the value it
    denotes: [chat_id] is the number given or [parseInt] of the string
    given, where [JSON.stringify] writes [NaN] as [null]; [parse_mode]
    is present when truthy, [silent] when defined. *)
Definition sendMessage_body
    (chatId : Z + string) (text : string) (options : option SendMessageOptions)
  : value :=
  JObj ([("chat_id",
          match chatId with
          | inl n => JNum n
          | inr s => match parseInt s with
                     | Some n => JNum n
                     | None => JNull
                     end
          end);
         ("text", JStr text)]
        ++ match options with
           | Some {| parseMode := Some mode |} =>
               if truthy_string mode then [("parse_mode", JStr mode)] else []
           | _ => []
           end
        ++ match options with
           | Some {| silent := Some flag |} => [("silent", JBool flag)]
           | _ => []
           end)%list.

Record ServerChanSendResult : Type := {
  send_ok : bool;
  send_message_id : option Z;
  send_error : option string;
}.

(** What [fetch] does with the [sendMessage] request. *)
Inductive SendFetchOutcome : Type :=
| SendRejects (reason : string)
| SendResolves (status : Z) (statusText : string)
               (json : option ServerChanSendResult).

(** [serverChanBotSendMessage] once the request is built: [inl] is a
    thrown error. *)
Definition serverChanBotSendMessage
    (outcome : SendFetchOutcome) : string + ServerChanSendResult :=
  match outcome with
  | SendRejects reason => inl reason
  | SendResolves status statusText json =>
      if negb (response_ok status)
      then inr {| send_ok := false;
                  send_message_id := None;
                  send_error := Some ("HTTP " ++ pretty status ++ ": " ++ statusText) |}
      else
        match json with
        | Some body => inr body
        | None => inl "invalid json"
        end
  end.

End Api.

(** ** [src/channel.ts]: webhook router, update processor, polling loop *)

Module Channel.
Import Js Api.

Inductive TokenSource : Type := TokenConfig | TokenEnv | TokenNone.

(** The [config] bag of a resolved account. *)
Record AccountConfig : Type := {
  botToken : option string;
  chatId : option string;
  webhookUrl : option string;
  webhookSecret : option string;
  webhookPath : option string;
  dmPolicy : option string;
  allowFrom : option (list value);
  pollingEnabled : option bool;
  pollingIntervalMs : option Z;
}.

Record ResolvedServerChanBotAccount : Type := {
  accountId : string;
  name : option string;
  enabled : bool;
  tokenSource : TokenSource;
  config : AccountConfig;
}.

(** A webhook target.  Its [log] and [statusSink] callbacks are the
    output channels of the handlers below and appear there as effects. *)
Record WebhookTarget : Type := {
  target_account : ResolvedServerChanBotAccount;
  target_config : value;
  target_botToken : string;
  target_path : string;
  target_secret : option string;
}.

(** A target object on the heap: [entry !== normalizedTarget] compares
    addresses, not contents. *)
Record TargetRef : Type := {
  addr : nat;
  obj : WebhookTarget;
}.

(** The module-level [webhookTargets] map, together with the next free
    address for the object literal that [register] allocates. *)
Record Registry : Type := {
  next_addr : nat;
  webhookTargets : gmap string (list TargetRef);
}.

Definition empty_registry : Registry :=
  {| next_addr := 0; webhookTargets := ∅ |}.

Definition normalizeWebhookPath (raw : string) : string :=
  let trimmed := trim raw in
  if negb (truthy_string trimmed) then "/"
  else
    let withSlash :=
      if startsWith trimmed "/" then trimmed else "/" ++ trimmed in
    if (1 <? String.length withSlash)%nat && endsWith withSlash "/"
    then slice_0_m1 withSlash
    else withSlash.

(** [s?.trim()] used as a condition: absent and blank are both falsy. *)
Definition nonblank (o : option string) : bool :=
  match o with
  | Some s => truthy_string (trim s)
  | None => false
  end.

(** [!target.secret]. *)
Definition no_secret (t : TargetRef) : bool :=
  match target_secret (obj t) with
  | Some s => negb (truthy_string s)
  | None => true
  end.

Definition secret_matches
    (headers : gmap string header_value) (t : TargetRef) : bool :=
  match target_secret (obj t) with
  | Some s => if negb (truthy_string s) then false else verifyWebhookSecret headers s
  | None => false
  end.

Definition selectWebhookTarget
    (targets : list TargetRef) (headers : gmap string header_value)
  : option TargetRef :=
  match targets with
  | [only] =>
      if no_secret only then Some only
      else
        match target_secret (obj only) with
        | Some s => if verifyWebhookSecret headers s then Some only else None
        | None => None
        end
  | _ =>
      match List.find (secret_matches headers) targets with
      | Some secretTarget => Some secretTarget
      | None =>
          match List.filter no_secret targets with
          | [t] => Some t
          | _ => None
          end
      end
  end.

(** The closure returned by [register]: it captures [key] and the
    freshly allocated [normalizedTarget]. *)
Record Unregister : Type := {
  captured_key : string;
  captured_target : nat;
}.

Definition registerServerChanBotWebhookTarget
    (target : WebhookTarget) (st : Registry) : Unregister * Registry :=
  let key := normalizeWebhookPath (target_path target) in
  let normalizedTarget :=
    {| addr := next_addr st;
       obj := {| target_account := target_account target;
                 target_config := target_config target;
                 target_botToken := target_botToken target;
                 target_path := key;
                 target_secret := target_secret target |} |} in
  let existing := default [] (webhookTargets st !! key) in
  let next := (existing ++ [normalizedTarget])%list in
  ({| captured_key := key; captured_target := addr normalizedTarget |},
   {| next_addr := S (next_addr st);
      webhookTargets := <[key := next]> (webhookTargets st) |}).

(** [entry !== normalizedTarget]. *)
Definition is_other (u : Unregister) (entry : TargetRef) : bool :=
  negb (addr entry =? captured_target u)%nat.

(** Calling the closure. *)
Definition unregister (u : Unregister) (st : Registry) : Registry :=
  let key := captured_key u in
  let updated :=
    List.filter (is_other u) (default [] (webhookTargets st !! key)) in
  {| next_addr := next_addr st;
     webhookTargets :=
       if (0 <? List.length updated)%nat
       then <[key := updated]> (webhookTargets st)
       else delete key (webhookTargets st) |}.

(** What [readJsonBody] resolves to. *)
Inductive ReadResult : Type :=
| ReadOk (v : value)
| ReadFailed (error : string).

Record Response : Type := {
  statusCode : Z;
  allow : option string;
  sent : string;
}.

(** Outcome of the HTTP handler: whether it claimed the request, the
    response it wrote, and the call of the Update Processor it
    started, if any. *)
Record Handled : Type := {
  handled : bool;
  response : option Response;
  processing : option (ServerChanUpdate * TargetRef);
}.

Definition respond (code : Z) (allow : option string) (text : string) : Handled :=
  {| handled := true;
     response := Some {| statusCode := code; allow := allow; sent := text |};
     processing := None |}.

(** [handleServerChanBotWebhookRequest]; [pathname] is [url.pathname]
    of the request and [body] the outcome of reading it. *)
Definition handleServerChanBotWebhookRequest
    (st : Registry) (pathname method : string)
    (headers : gmap string header_value) (body : ReadResult) : Handled :=
  let path := normalizeWebhookPath pathname in
  match webhookTargets st !! path with
  | None | Some [] =>
      {| handled := false; response := None; processing := None |}
  | Some targets =>
      if negb (String.eqb method "POST")
      then respond 405 (Some "POST") "Method Not Allowed"
      else
        match selectWebhookTarget targets headers with
        | None => respond 401 None "unauthorized"
        | Some selected =>
            match body with
            | ReadFailed error =>
                respond (if String.eqb error "payload too large" then 413 else 400)
                        None error
            | ReadOk v =>
                match parseWebhookPayload v with
                | None => respond 400 None "invalid payload"
                | Some update =>
                    {| handled := true;
                       response := Some {| statusCode := 200; allow := None; sent := "ok" |};
                       processing := Some (update, selected) |}
                end
            end
        end
  end.

(** *** Account listing and mode decision *)

Section Host.
(** [DEFAULT_ACCOUNT_ID] of the plugin SDK. *)
Variable DEFAULT_ACCOUNT_ID : string.
(** [new URL(s).pathname]; [None] when the constructor throws. *)
Variable URL_pathname : string -> option string.

Definition listServerChanBotAccountIds (cfg : value) : list string :=
  let section := get "serverchan-bot" (get "channels" cfg) in
  if negb (truthy section) then [DEFAULT_ACCOUNT_ID]
  else
    let accounts := get "accounts" section in
    if negb (truthy accounts) || negb (bool_decide (typeof accounts = TObject))
    then [DEFAULT_ACCOUNT_ID]
    else
      let ids := List.filter (fun id => truthy_string (trim id)) (keys accounts) in
      if (List.length ids =? 0)%nat then [DEFAULT_ACCOUNT_ID]
      else if negb (existsb (String.eqb DEFAULT_ACCOUNT_ID) ids)
           then DEFAULT_ACCOUNT_ID :: ids
           else ids.

(** [None] is [null]. *)
Definition resolveWebhookPath (webhookPath webhookUrl : option string)
  : option string :=
  if nonblank webhookPath
  then Some (normalizeWebhookPath (trim (default "" webhookPath)))
  else if nonblank webhookUrl
  then match URL_pathname (default "" webhookUrl) with
       | Some pathname =>
           Some (normalizeWebhookPath
                   (if truthy_string pathname then pathname else "/"))
       | None => None
       end
  else Some "/serverchan-bot".

Definition hasWebhookConfig (account : ResolvedServerChanBotAccount) : bool :=
  nonblank (webhookUrl (config account))
  || nonblank (webhookPath (config account))
  || nonblank (webhookSecret (config account)).

Definition shouldPoll (account : ResolvedServerChanBotAccount) : bool :=
  match pollingEnabled (config account) with
  | Some b => b
  | None => negb (hasWebhookConfig account)
  end.

Definition wantsWebhook (account : ResolvedServerChanBotAccount) : bool :=
  match pollingEnabled (config account) with
  | Some b => negb b
  | None => hasWebhookConfig account
  end.

(** What [startAccount] has done once the mode is settled: the
    registry, the closure bound to the abort signal, whether the
    underivable-path error was logged, whether the polling loop is
    entered. *)
Record Started : Type := {
  registry_after : Registry;
  on_abort : option Unregister;
  path_error_logged : bool;
  polling : bool;
}.

(** [startAccount] from the token check on; [None] is the thrown
    "token not configured" error. *)
Definition startAccount
    (account : ResolvedServerChanBotAccount) (cfg : value) (st : Registry)
  : option Started :=
  match botToken (config account) with
  | None => None
  | Some token =>
      if negb (truthy_string token) then None
      else
        let webhookPath :=
          if wantsWebhook account
          then resolveWebhookPath (webhookPath (config account))
                                  (webhookUrl (config account))
          else None in
        let path_ok :=
          match webhookPath with
          | Some p => truthy_string p
          | None => false
          end in
        if wantsWebhook account && path_ok then
          let webhookSecret :=
            if nonblank (webhookSecret (config account))
            then Some (trim (default "" (webhookSecret (config account))))
            else None in
          let '(unreg, st') :=
            registerServerChanBotWebhookTarget
              {| target_account := account;
                 target_config := cfg;
                 target_botToken := token;
                 target_path := default "" webhookPath;
                 target_secret := webhookSecret |} st in
          Some {| registry_after := st';
                  on_abort := Some unreg;
                  path_error_logged := false;
                  polling := shouldPoll account |}
        else
          Some {| registry_after := st;
                  on_abort := None;
                  path_error_logged := wantsWebhook account && negb path_ok;
                  polling := shouldPoll account |}
  end.

End Host.

(** *** Update processor *)

Record MsgContext : Type := {
  Provider : string;
  Surface : string;
  Channel : string;
  From : string;
  To : string;
  Body : string;
  RawBody : string;
  BodyForCommands : string;
  BodyForAgent : string;
  ChatType : string;
  AccountId : string;
  MessageSid : string;
  MessageSidFull : string;
  SessionKey : string;
  SenderId : string;
  Timestamp : Z;
}.

(** What the processor does, in order. *)
Inductive Effect : Type :=
| LogMissingChatId (account : string) (update : ServerChanUpdate)
| LogReceived (account chat : string) (excerpt : string)
| StatusInbound (lastInboundAt : Z)
| DispatchReply (ctx : MsgContext).

(** [update.message.chat?.id ?? update.message.chat_id ??
    update.message.from?.id]. *)
Definition updateChatId (update : ServerChanUpdate) : value :=
  let optional_id (o : option value) :=
    match o with
    | Some v => get "id" v
    | None => JUndef
    end in
  nullish (nullish (optional_id (chat (message update)))
                   (of_number (chat_id (message update))))
          (optional_id (from (message update))).

(** [processServerChanBotUpdate] up to the hand-over to the reply
    dispatcher; [now] is the reading of [Date.now()]. *)
Definition processServerChanBotUpdate
    (now : Z) (update : ServerChanUpdate) (account : ResolvedServerChanBotAccount)
  : list Effect :=
  let updateChatId := updateChatId update in
  if is_nullish updateChatId
  then [LogMissingChatId (accountId account) update]
  else
    let chatId := to_String updateChatId in
    let text := text (message update) in
    let messageId := to_String (JNum (message_id (message update))) in
    [ LogReceived (accountId account) chatId (String.substring 0 50 text);
      StatusInbound now;
      DispatchReply
        {| Provider := "serverchan-bot";
           Surface := "serverchan-bot";
           Channel := "serverchan-bot";
           From := chatId;
           To := chatId;
           Body := text;
           RawBody := text;
           BodyForCommands := text;
           BodyForAgent := text;
           ChatType := "direct";
           AccountId := accountId account;
           MessageSid := messageId;
           MessageSidFull := "serverchan-bot:" ++ messageId;
           SessionKey := "serverchan-bot:" ++ chatId;
           SenderId := chatId;
           Timestamp := match date (message update) with
                        | Some d => if d =? 0 then now else d * 1000
                        | None => now
                        end |} ].

(** *** Polling loop *)

Inductive PollEvent : Type :=
| GetUpdates (timeout offset : Z)
| OnUpdate (update : ServerChanUpdate)
| ConsoleError
| Sleep (ms : Z).

Section Polling.
(** Whether the promise of [onUpdate(update)] resolves ([true]) or
    rejects. *)
Variable onUpdate : ServerChanUpdate -> bool.

(** The [for ... of] over [result.result]: the cursor after it, the
    calls made, and whether a call threw.  The sum is exact when the
    identifier is a safe integer. *)
Fixpoint for_each_update (updates : list ServerChanUpdate) (offset : Z)
  : Z * list PollEvent * bool :=
  match updates with
  | [] => (offset, [], false)
  | update :: rest =>
      let offset := update_id update + 1 in
      if onUpdate update
      then let '(offset', events, threw) := for_each_update rest offset in
           (offset', OnUpdate update :: events, threw)
      else (offset, [OnUpdate update], true)
  end.

(** The [catch] block. *)
Definition on_polling_error : list PollEvent := [ConsoleError; Sleep 5000].

(** One pass through the body of the [while] loop. *)
Definition poll_iteration (outcome : FetchOutcome) (offset : Z)
  : Z * list PollEvent :=
  match serverChanBotGetUpdates outcome with
  | inl _ => (offset, GetUpdates 30 offset :: on_polling_error)
  | inr result =>
      if ok result && (0 <? List.length (Api.result result))%nat
      then
        let '(offset', events, threw) :=
          for_each_update (Api.result result) offset in
        (offset',
         (GetUpdates 30 offset :: events
            ++ (if threw then on_polling_error else []))%list)
      else (offset, [GetUpdates 30 offset])
  end.

(** What the environment presents at one loop head: the state of the
    abort signal and the outcome of the fetch that follows. *)
Record Tick : Type := {
  aborted : bool;
  fetch : FetchOutcome;
}.

Inductive LoopStatus : Type := Returned | Polling.

Fixpoint poll_loop (env : list Tick) (offset : Z)
  : LoopStatus * Z * list PollEvent :=
  match env with
  | [] => (Polling, offset, [])
  | tick :: env' =>
      if aborted tick then (Returned, offset, [])
      else
        let '(offset', events) := poll_iteration (fetch tick) offset in
        let '(status, offset'', events') := poll_loop env' offset' in
        (status, offset'', (events ++ events')%list)
  end.

(** [monitorServerChanBotPolling] run against a finite prefix of its
    environment; the cursor starts at 0. *)
Definition monitorServerChanBotPolling (env : list Tick)
  : LoopStatus * Z * list PollEvent :=
  poll_loop env 0.

End Polling.

(** *** Reading the request body *)

(** What the request stream emits: a chunk (a [Buffer], as its bytes),
    the end of the stream, or an error with its message. *)
Inductive StreamEvent : Type :=
| Data (chunk : string)
| End
| StreamError (message : string).

Section Body.
(** [JSON.parse(raw)]: the value, or the message of the error thrown. *)
Variable JSON_parse : string -> string + value.
(** [buffer.toString("utf8")]: the bytes received, decoded. *)
Variable utf8 : string -> string.

(** The listeners of [readJsonBody] run over the events of the stream,
    with the [chunks] and [total] they share; [None]: the promise is
    still pending.  Once resolved the listeners are removed, so the rest
    of the stream is ignored. *)
Fixpoint read_events (maxBytes : nat) (events : list StreamEvent)
    (chunks : list string) (total : nat) : option ReadResult :=
  match events with
  | [] => None
  | Data chunk :: rest =>
      let total := (total + String.length chunk)%nat in
      if (maxBytes <? total)%nat
      then Some (ReadFailed "payload too large")
      else read_events maxBytes rest (chunks ++ [chunk])%list total
  | End :: _ =>
      let raw := utf8 (String.concat "" chunks) in
      if negb (truthy_string (trim raw))
      then Some (ReadFailed "empty payload")
      else match JSON_parse raw with
           | inr v => Some (ReadOk v)
           | inl message => Some (ReadFailed message)
           end
  | StreamError message :: _ => Some (ReadFailed message)
  end.

Definition readJsonBody (maxBytes : nat) (events : list StreamEvent)
  : option ReadResult :=
  read_events maxBytes events [] 0.

End Body.

(** The byte ceiling the handler passes: [1024 * 1024]. *)
Definition MAX_BODY_BYTES : nat := 1024 * 1024.

(** *** Targets and allow-list entries *)

(** [s.replace(/^serverchan(-bot)?:/i, "")]: the channel prefix, in any
    letter case, is removed from the front. *)
Definition strip_channel_prefix (s : string) : string :=
  let lower := toLowerCase s in
  if String.prefix "serverchan-bot:" lower then drop_chars 15 s
  else if String.prefix "serverchan:" lower then drop_chars 11 s
  else s.

(** [/^\d+$/.test(s)]. *)
Definition all_digits (s : string) : bool :=
  truthy_string s && forallb is_digit (list_ascii_of_string s).

Definition normalizeAllowEntry (entry : string) : string :=
  trim (strip_channel_prefix entry).

(** [messaging.normalizeTarget]; [None] is [undefined]. *)
Definition normalizeTarget (raw : string) : option string :=
  let trimmed := trim raw in
  if negb (truthy_string trimmed) then None
  else
    let normalized := strip_channel_prefix trimmed in
    if all_digits normalized then Some normalized else None.

(** [messaging.targetResolver.looksLikeId]. *)
Definition looksLikeId (raw : string) (normalized : option string) : bool :=
  let value := trim (default raw normalized) in
  if negb (truthy_string value) then false else all_digits value.

(** [config.formatAllowFrom]. *)
Definition formatAllowFrom (allowFrom : list value) : list string :=
  let trimmed := List.map (fun entry => trim (to_String entry)) allowFrom in
  let kept := List.filter truthy_string trimmed in
  let stripped :=
    List.map (fun entry => if String.eqb entry "*" then entry
                           else normalizeAllowEntry entry) kept in
  List.map (fun entry => if String.eqb entry "*" then entry
                         else toLowerCase entry) stripped.

(** *** Delivering a reply *)

Inductive DeliverEffect : Type :=
| SendMessage (token chat text : string)
| LogSendFailed (account : string) (error : option string)
| StatusOutbound (lastOutboundAt : Z)
| LogSendError (account : string) (err : string).

(** The [deliver] callback that [processServerChanBotUpdate] hands to
    the dispatcher, for the update's [chatId]; [sent] is what the call of
    [serverChanBotSendMessage] comes to. *)
Definition deliver
    (account : ResolvedServerChanBotAccount) (botToken chatId : string)
    (now : Z) (sent : string + ServerChanSendResult)
    (payload_text : option string) : list DeliverEffect :=
  let replyText :=
    match payload_text with
    | Some t => if truthy_string t then t else ""
    | None => ""
    end in
  if negb (truthy_string (trim replyText)) then []
  else
    let targetChatId :=
      match Channel.chatId (config account) with
      | Some configured =>
          if truthy_string (trim configured) then trim configured else chatId
      | None => chatId
      end in
    SendMessage botToken targetChatId replyText
      :: match sent with
         | inr result =>
             if negb (send_ok result)
             then [LogSendFailed (accountId account) (send_error result)]
             else [StatusOutbound now]
         | inl err => [LogSendError (accountId account) err]
         end.

End Channel.

(** ** The specification's vocabulary *)

Module Spec.
Import Js Api Channel.

Definition is_number (v : value) : bool := bool_decide (typeof v = TNumber).
Definition is_string (v : value) : bool := bool_decide (typeof v = TString).

Definition is_sub_object (v : value) : bool :=
  match v with
  | JObj _ => true
  | _ => false
  end.

Definition strictly_true (v : value) : bool :=
  match v with
  | JBool true => true
  | _ => false
  end.

(** "Chat identifier is taken from a direct numeric field if present,
    else from a nested chat object's identifier." *)
Definition chat_identifier (msg : value) : value :=
  if is_number (get "chat_id" msg) then get "chat_id" msg
  else get "id" (get "chat" msg).

(** The shape of a webhook body, for a given reading of "the [ok] flag
    is set": a numeric update identifier and a message sub-object with
    numeric message identifier, string text and a numeric chat
    identifier. *)
Definition well_formed (ok_flag : value -> bool) (body : value) : bool :=
  let msg := get "message" body in
  ok_flag (get "ok" body)
  && is_number (get "update_id" body)
  && is_sub_object msg
  && is_number (get "message_id" msg)
  && is_string (get "text" msg)
  && is_number (chat_identifier msg).

(** A header key is a casing of the fixed header name. *)
Definition is_casing_of_header (k : string) : bool :=
  String.eqb (toLowerCase k) HEADER_LOWER.

(** Operations on the webhook registry, and a run of them. *)
Inductive Op : Type :=
| Register (target : WebhookTarget)
| CallUnregister (u : Unregister).

Definition apply_op (st : Registry) (op : Op) : Registry :=
  match op with
  | Register target => snd (registerServerChanBotWebhookTarget target st)
  | CallUnregister u => unregister u st
  end.

Definition run (ops : list Op) : Registry :=
  fold_left apply_op ops empty_registry.

Definition targets_at (key : string) (st : Registry) : list TargetRef :=
  default [] (webhookTargets st !! key).

(** Every key of the registry is a normalized path, holds at least
    one target, and is the path of each target stored under it. *)
Definition registry_invariant (st : Registry) : Prop :=
  forall key targets,
    webhookTargets st !! key = Some targets ->
    targets <> []
    /\ (exists raw, key = normalizeWebhookPath raw)
    /\ Forall (fun r => target_path (obj r) = key) targets.

(** Addresses in the registry were handed out by [register]: each
    lies below the next free one, and no two entries of a path share
    one. *)
Definition addresses_allocated (st : Registry) : Prop :=
  forall key targets,
    webhookTargets st !! key = Some targets ->
    Forall (fun r => (addr r < next_addr st)%nat) targets
    /\ List.NoDup (List.map addr targets).

(** A closure is spent in a registry when its address was allocated
    in the past and no entry at its path carries it any more. *)
Definition spent (u : Unregister) (st : Registry) : Prop :=
  (captured_target u < next_addr st)%nat
  /\ Forall (fun r => addr r <> captured_target u)
            (targets_at (captured_key u) st).


(** The updates of a batch that reach [onUpdate]: all of them up to and
    including the first whose call rejects. *)
Fixpoint handed (onUpdate : ServerChanUpdate -> bool)
    (updates : list ServerChanUpdate) : list ServerChanUpdate :=
  match updates with
  | [] => []
  | update :: rest =>
      if onUpdate update then update :: handed onUpdate rest else [update]
  end.

(** The cursor once the given updates have been handed over: one past
    the identifier of the last of them. *)
Definition cursor_after (offset : Z) (updates : list ServerChanUpdate) : Z :=
  List.last (List.map (fun update => update_id update + 1) updates) offset.

(** Something threw inside the [try] block of an iteration: the fetch
    itself, the decoding of its body, or a call of [onUpdate]. *)
Definition iteration_threw (onUpdate : ServerChanUpdate -> bool)
    (outcome : FetchOutcome) : bool :=
  match serverChanBotGetUpdates outcome with
  | inl _ => true
  | inr response => ok response && negb (forallb onUpdate (result response))
  end.

(** The number of bytes in a sequence of chunks. *)
Fixpoint bytes_of (chunks : list string) : nat :=
  match chunks with
  | [] => 0
  | chunk :: rest => String.length chunk + bytes_of rest
  end.

End Spec.

(** * Properties *)

Import Js Api Channel Spec.

(** ** Transport client *)

Section SecretCheck.

Lemma secretValue_lower headers v :
  headers !! HEADER_LOWER = Some v -> secretValue headers = first_value v.
Proof. intros H. unfold secretValue. by rewrite H. Qed.

Lemma secretValue_mixed headers v :
  headers !! HEADER_LOWER = None ->
  headers !! HEADER_MIXED = Some v ->
  secretValue headers = first_value v.
Proof. intros H1 H2. unfold secretValue. by rewrite H1, H2. Qed.

Lemma secretValue_absent headers :
  headers !! HEADER_LOWER = None ->
  headers !! HEADER_MIXED = None ->
  secretValue headers = None.
Proof. intros H1 H2. unfold secretValue. by rewrite H1, H2. Qed.

Lemma verifyWebhookSecret_true headers expected :
  verifyWebhookSecret headers expected = true <->
  secretValue headers = Some expected.
Proof. unfold verifyWebhookSecret. by rewrite bool_decide_eq_true. Qed.

End SecretCheck.

(** C4, as stated: a header stored under an all-capitals casing of the
    fixed name and carrying the expected secret is not found, so the
    lookup is not case-insensitive over arbitrary header maps. *)
Lemma verifyWebhookSecret_misses_other_casing :
  let headers : gmap string header_value :=
    {[ "X-SC3BOT-WEBHOOK-SECRET" := HStr "s3cret" ]} in
  is_casing_of_header "X-SC3BOT-WEBHOOK-SECRET" = true
  /\ headers !! "X-SC3BOT-WEBHOOK-SECRET" = Some (HStr "s3cret")
  /\ verifyWebhookSecret headers "s3cret" = false.
Proof. vm_compute. repeat split. Qed.

(** C4, amended: [verifyWebhookSecret] reads the header under the
    lower-case name and, only when that key is absent, under the
    spelling [X-Sc3Bot-Webhook-Secret]; no other key of the map matters.
    It answers [true] exactly when the value found (its first element,
    for an array) is the expected secret, hence [false] when the header
    is absent under both spellings. *)
Theorem verifyWebhookSecret_two_spellings
    (headers : gmap string header_value) (expected : string) :
  (verifyWebhookSecret headers expected = true <->
     exists v, first_value v = Some expected
               /\ (headers !! HEADER_LOWER = Some v
                   \/ (headers !! HEADER_LOWER = None
                       /\ headers !! HEADER_MIXED = Some v)))
  /\ (headers !! HEADER_LOWER = None ->
      headers !! HEADER_MIXED = None ->
      verifyWebhookSecret headers expected = false)
  /\ (forall k v, k <> HEADER_LOWER -> k <> HEADER_MIXED ->
        verifyWebhookSecret (<[k := v]> headers) expected
        = verifyWebhookSecret headers expected).
Proof.
  split; [|split].
  - rewrite verifyWebhookSecret_true. split.
    + unfold secretValue.
      destruct (headers !! HEADER_LOWER) as [v|] eqn:Hl.
      * intros Hv. exists v. auto.
      * destruct (headers !! HEADER_MIXED) as [v|] eqn:Hm; [|done].
        intros Hv. exists v. auto.
    + intros (v & Hv & [Hl | [Hl Hm]]).
      * by rewrite (secretValue_lower _ _ Hl).
      * by rewrite (secretValue_mixed _ _ Hl Hm).
  - intros Hl Hm. unfold verifyWebhookSecret.
    by rewrite (secretValue_absent _ Hl Hm).
  - intros k v Hk1 Hk2. unfold verifyWebhookSecret, secretValue.
    by rewrite !lookup_insert_ne.
Qed.

Lemma verifyWebhookSecret_two_spellings_witness :
  let mixed : gmap string header_value :=
    {[ HEADER_MIXED := HArr ["s3cret"; "other"] ]} in
  verifyWebhookSecret mixed "s3cret" = true
  /\ verifyWebhookSecret (∅ : gmap string header_value) "s3cret" = false
  /\ verifyWebhookSecret (<["X-SC3BOT-WEBHOOK-SECRET" := HStr "s3cret"]> mixed) "wrong"
     = verifyWebhookSecret mixed "wrong".
Proof.
  intros mixed. split; [|split].
  - apply (verifyWebhookSecret_two_spellings mixed "s3cret").
    exists (HArr ["s3cret"; "other"]). split; [reflexivity|].
    right. split; vm_compute; reflexivity.
  - apply (verifyWebhookSecret_two_spellings ∅ "s3cret"); reflexivity.
  - apply (verifyWebhookSecret_two_spellings mixed "wrong"); discriminate.
Defined.

(** ** Webhook payload parser *)

Section Parser.

Lemma get_JNum_is_number k v n : get k v = JNum n -> is_number (get k v) = true.
Proof. by intros ->. Qed.

Lemma is_number_inv v : is_number v = true -> exists n, v = JNum n.
Proof. destruct v; try discriminate. eauto. Qed.

Lemma is_string_inv v : is_string v = true -> exists s, v = JStr s.
Proof. destruct v; try discriminate. eauto. Qed.

Lemma is_sub_object_inv v : is_sub_object v = true -> exists props, v = JObj props.
Proof. destruct v; try discriminate. eauto. Qed.

Lemma strictly_true_inv v : strictly_true v = true -> v = JBool true.
Proof. destruct v as [| |[]| | | |]; by try discriminate. Qed.

(** The parser on a body that has the strict shape. *)
Lemma parseWebhookPayload_accepts body :
  well_formed strictly_true body = true ->
  exists u,
    parseWebhookPayload body = Some u
    /\ JNum (update_id u) = get "update_id" body
    /\ JNum (message_id (message u)) = get "message_id" (get "message" body)
    /\ JStr (text (message u)) = get "text" (get "message" body)
    /\ of_number (chat_id (message u)) = chat_identifier (get "message" body).
Proof.
  unfold well_formed. rewrite !andb_true_iff.
  intros [[[[[Hok Hid] Hmsg] Hmid] Htext] Hchat].
  apply strictly_true_inv in Hok.
  apply is_number_inv in Hid as [uid Hid].
  apply is_sub_object_inv in Hmsg as [mprops Hmsg].
  apply is_number_inv in Hmid as [mid Hmid].
  apply is_string_inv in Htext as [txt Htext].
  apply is_number_inv in Hchat as [cid Hchat].
  destruct body as [| | | | | |props]; try discriminate.
  unfold parseWebhookPayload, chat_identifier in *.
  rewrite Hok, Hid, Hmsg in *. rewrite Hmid, Htext.
  cbn [get] in *.
  destruct (assoc "chat_id" mprops) eqn:Hraw; simpl in Hchat |- *.
  all: try (destruct (assoc "chat" mprops) as [| | | | | |cprops] eqn:Hc;
            simpl in Hchat; try discriminate; simpl; rewrite Hchat).
  all: eexists; split; [reflexivity|]; simpl; rewrite ?Hchat; done.
Qed.

(** The parser answers only on a body that has the strict shape. *)
Lemma parseWebhookPayload_Some_shape body u :
  parseWebhookPayload body = Some u -> well_formed strictly_true body = true.
Proof.
  unfold parseWebhookPayload, well_formed, chat_identifier.
  destruct body as [| | | | | |props];
    try (cbn [typeof bool_decide decide_rel type_tag_eq_dec]; simpl;
         rewrite ?orb_true_r; discriminate).
  cbn [truthy typeof negb orb get].
  destruct (assoc "ok" props) as [| |[]| | | |]; try discriminate.
  destruct (assoc "update_id" props); try discriminate.
  destruct (assoc "message" props) as [| | | | |elems|mprops];
    try (simpl; rewrite ?orb_true_r; discriminate).
  cbn [truthy typeof negb orb get andb strictly_true is_number is_sub_object].
  destruct (assoc "message_id" mprops), (assoc "chat_id" mprops),
    (assoc "chat" mprops) as [| | | | | |cprops]; simpl; try discriminate.
  all: repeat case_match; try discriminate; try done.
Qed.

(** Re-parsing keeps a property whose value is defined. *)
Lemma assoc_strip_defined k props :
  assoc k props <> JUndef ->
  assoc k (strip_with reparse props) = reparse (assoc k props).
Proof.
  induction props as [|[k' x] rest IH]; [done|].
  simpl. destruct (String.eqb_spec k k') as [->|Hne].
  - intros Hx. destruct x; try done; simpl; by rewrite String.eqb_refl.
  - intros Hx. specialize (IH Hx).
    destruct x; try done; simpl;
      by destruct (String.eqb_spec k k'); [congruence|].
Qed.

(** Re-parsing does not invent a property. *)
Lemma assoc_strip_absent k props :
  ~ In k (List.map fst props) ->
  assoc k (strip_with reparse props) = JUndef.
Proof.
  induction props as [|[k' x] rest IH]; [done|].
  simpl. intros Hin.
  assert (k <> k') as Hne by (intros ->; apply Hin; by left).
  assert (~ In k (List.map fst rest)) as Hrest by (intros H; apply Hin; by right).
  specialize (IH Hrest).
  destruct x; try done; simpl;
    by destruct (String.eqb_spec k k'); [congruence|].
Qed.

Lemma assoc_strip_undefined k props :
  List.NoDup (List.map fst props) ->
  assoc k props = JUndef ->
  assoc k (strip_with reparse props) = JUndef.
Proof.
  induction props as [|[k' x] rest IH]; [done|].
  simpl. intros Hnd. inversion Hnd as [|? ? Hk' Hnd']; subst.
  destruct (String.eqb_spec k k') as [->|Hne].
  - intros ->. by apply assoc_strip_absent.
  - intros Hx. specialize (IH Hnd' Hx).
    destruct x; try done; simpl;
      by destruct (String.eqb_spec k k'); [congruence|].
Qed.

Lemma typeof_reparse v : v <> JUndef -> typeof (reparse v) = typeof v.
Proof. by destruct v. Qed.

Lemma reparse_number v : is_number (reparse v) = is_number v.
Proof. by destruct v. Qed.

Lemma reparse_well_formed body :
  well_formed strictly_true body = true ->
  List.NoDup (keys (get "message" body)) ->
  well_formed strictly_true (reparse body) = true
  /\ get "update_id" (reparse body) = get "update_id" body
  /\ get "message_id" (get "message" (reparse body))
     = get "message_id" (get "message" body)
  /\ get "text" (get "message" (reparse body)) = get "text" (get "message" body)
  /\ chat_identifier (get "message" (reparse body))
     = chat_identifier (get "message" body).
Proof.
  intros Hwf. pose proof Hwf as Hwf'. revert Hwf'.
  unfold well_formed at 1. rewrite !andb_true_iff.
  intros [[[[[Hok Hid] Hmsg] Hmid] Htext] Hchat].
  apply strictly_true_inv in Hok.
  apply is_number_inv in Hid as [uid Hid].
  apply is_sub_object_inv in Hmsg as [mprops Hmsg].
  apply is_number_inv in Hmid as [mid Hmid].
  apply is_string_inv in Htext as [txt Htext].
  apply is_number_inv in Hchat as [cid Hchat].
  destruct body as [| | | | | |props]; try discriminate.
  rewrite Hmsg in *. cbn [get keys reparse] in *. intros Hnd.
  assert (assoc "update_id" (strip_with reparse props) = JNum uid) as Ruid.
  { rewrite assoc_strip_defined by (by rewrite Hid). by rewrite Hid. }
  assert (assoc "ok" (strip_with reparse props) = JBool true) as Rok.
  { rewrite assoc_strip_defined by (by rewrite Hok). by rewrite Hok. }
  assert (assoc "message" (strip_with reparse props)
          = JObj (strip_with reparse mprops)) as Rmsg.
  { rewrite assoc_strip_defined by (by rewrite Hmsg). by rewrite Hmsg. }
  assert (assoc "message_id" (strip_with reparse mprops) = JNum mid) as Rmid.
  { rewrite assoc_strip_defined by (by rewrite Hmid). by rewrite Hmid. }
  assert (assoc "text" (strip_with reparse mprops) = JStr txt) as Rtext.
  { rewrite assoc_strip_defined by (by rewrite Htext). by rewrite Htext. }
  assert (chat_identifier (JObj (strip_with reparse mprops)) = JNum cid) as Rchat.
  { unfold chat_identifier in *. cbn [get] in *.
    destruct (assoc "chat_id" mprops) as [| | | | | |] eqn:Hraw.
    all: first [ rewrite (assoc_strip_undefined _ _ Hnd Hraw)
               | rewrite assoc_strip_defined by (by rewrite Hraw); rewrite Hraw ].
    all: simpl in *; try done.
    all: destruct (assoc "chat" mprops) as [| | | | | |cprops] eqn:Hc;
        try discriminate.
    all: rewrite assoc_strip_defined by (by rewrite Hc); rewrite Hc.
    all: cbn [reparse get] in *.
    all: rewrite assoc_strip_defined by (by rewrite Hchat); by rewrite Hchat. }
  unfold well_formed. cbn [get]. rewrite Rok, Ruid, Rmsg. cbn [get].
  rewrite Rmid, Rtext, Rchat, Hid, Hmid, Htext, Hchat. done.
Qed.
End Parser.

(** C5, as stated: a body whose [ok] flag is truthy but not the boolean
    [true], and which has every other required field, is rejected. *)
Lemma parseWebhookPayload_rejects_truthy_ok :
  let body :=
    JObj [("ok", JNum 1); ("update_id", JNum 5);
          ("message", JObj [("message_id", JNum 1); ("chat_id", JNum 42);
                            ("text", JStr "hi")])] in
  well_formed truthy body = true /\ parseWebhookPayload body = None.
Proof. vm_compute. split; reflexivity. Qed.

(** C5, amended: [parseWebhookPayload] is a total function that returns
    an update exactly when the body's [ok] field is the boolean [true]
    (a merely truthy flag is not enough), [update_id] is a number, and
    [message] is an object with a numeric [message_id], a string [text]
    and a chat identifier that is a number, read from [chat_id] when
    that is a number and from [chat.id] otherwise; the update carries
    those values.  On every other body it returns [null]. *)
Theorem parseWebhookPayload_exact (body : value) :
  match parseWebhookPayload body with
  | Some u =>
      well_formed strictly_true body = true
      /\ JNum (update_id u) = get "update_id" body
      /\ JNum (message_id (message u)) = get "message_id" (get "message" body)
      /\ JStr (text (message u)) = get "text" (get "message" body)
      /\ of_number (chat_id (message u)) = chat_identifier (get "message" body)
  | None => well_formed strictly_true body = false
  end.
Proof.
  destruct (well_formed strictly_true body) eqn:Hwf.
  - destruct (parseWebhookPayload_accepts body Hwf) as (u & -> & Hfields).
    by split.
  - destruct (parseWebhookPayload body) as [u|] eqn:Hparse; [|done].
    apply parseWebhookPayload_Some_shape in Hparse. congruence.
Qed.

(** C6: a well-formed webhook body ([ok] set, numeric [update_id], a
    message with numeric [message_id], string [text] and a numeric
    [chat_id] or [chat.id]) survives serialization: parsing what
    [JSON.parse] returns for its [JSON.stringify] text yields an update
    with the original [update_id], [message_id], chat identifier and
    [text]. *)
Theorem parseWebhookPayload_roundtrip (body : value) :
  well_formed strictly_true body = true ->
  List.NoDup (keys (get "message" body)) ->
  exists wire u,
    JSON_roundtrip body = Some wire
    /\ parseWebhookPayload wire = Some u
    /\ JNum (update_id u) = get "update_id" body
    /\ JNum (message_id (message u)) = get "message_id" (get "message" body)
    /\ of_number (chat_id (message u)) = chat_identifier (get "message" body)
    /\ JStr (text (message u)) = get "text" (get "message" body).
Proof.
  intros Hwf Hnd.
  destruct (reparse_well_formed body Hwf Hnd) as (Hwf' & Huid & Hmid & Htext & Hchat).
  destruct (parseWebhookPayload_accepts _ Hwf') as (u & Hparse & Fuid & Fmid & Ftext & Fchat).
  exists (reparse body), u. repeat split.
  - destruct body; try discriminate. reflexivity.
  - exact Hparse.
  - by rewrite Fuid.
  - by rewrite Fmid.
  - by rewrite Fchat.
  - by rewrite Ftext.
Qed.

Lemma parseWebhookPayload_roundtrip_witness :
  let body :=
    JObj [("ok", JBool true); ("update_id", JNum 5);
          ("message", JObj [("message_id", JNum 1);
                            ("chat", JObj [("id", JNum 42); ("type", JStr "private")]);
                            ("text", JStr "hi"); ("date", JUndef)])] in
  exists wire u,
    JSON_roundtrip body = Some wire
    /\ parseWebhookPayload wire = Some u
    /\ JNum (update_id u) = JNum 5
    /\ JNum (message_id (message u)) = JNum 1
    /\ of_number (chat_id (message u)) = JNum 42
    /\ JStr (text (message u)) = JStr "hi".
Proof.
  intros body. apply (parseWebhookPayload_roundtrip body).
  - reflexivity.
  - vm_compute. repeat constructor; simpl; intuition discriminate.
Defined.

(** ** Webhook registry *)

Example normalizeWebhookPath_samples :
  normalizeWebhookPath "" = "/"
  /\ normalizeWebhookPath "  " = "/"
  /\ normalizeWebhookPath "/" = "/"
  /\ normalizeWebhookPath " hook/ " = "/hook"
  /\ normalizeWebhookPath "/serverchan-bot" = "/serverchan-bot"
  /\ normalizeWebhookPath "/a//" = "/a/".
Proof. vm_compute. repeat split. Qed.

Section RegistryFacts.

Lemma targets_at_register target st key :
  targets_at key (snd (registerServerChanBotWebhookTarget target st)) =
  if decide (key = normalizeWebhookPath (target_path target))
  then (targets_at key st ++
        [{| addr := next_addr st;
            obj := {| target_account := target_account target;
                      target_config := target_config target;
                      target_botToken := target_botToken target;
                      target_path := key;
                      target_secret := target_secret target |} |}])%list
  else targets_at key st.
Proof.
  unfold targets_at, registerServerChanBotWebhookTarget. cbn [snd webhookTargets].
  case_decide as Hk.
  - subst key. by rewrite lookup_insert_eq.
  - by rewrite lookup_insert_ne.
Qed.

Lemma targets_at_unregister u st key :
  targets_at key (unregister u st) =
  if decide (key = captured_key u)
  then List.filter (is_other u) (targets_at key st)
  else targets_at key st.
Proof.
  unfold targets_at, unregister. cbn [webhookTargets].
  destruct (List.filter (is_other u) (default [] (webhookTargets st !! captured_key u)))
    as [|r rest] eqn:Hf; cbn [List.length Nat.ltb Nat.leb].
  - case_decide as Hk.
    + subst key. by rewrite lookup_delete_eq, Hf.
    + by rewrite lookup_delete_ne.
  - case_decide as Hk.
    + subst key. by rewrite lookup_insert_eq, Hf.
    + by rewrite lookup_insert_ne.
Qed.

Lemma filter_idempotent {A} (f : A -> bool) (l : list A) :
  List.filter f (List.filter f l) = List.filter f l.
Proof.
  induction l as [|x l IH]; [done|]. simpl.
  destruct (f x) eqn:Hx; [|done]. simpl. by rewrite Hx, IH.
Qed.

Lemma unregister_twice u st : unregister u (unregister u st) = unregister u st.
Proof.
  pose proof (targets_at_unregister u st (captured_key u)) as Hat.
  rewrite decide_True in Hat by done. unfold targets_at in Hat.
  unfold unregister at 1. rewrite Hat, filter_idempotent.
  unfold unregister. cbn [next_addr webhookTargets]. f_equal.
  destruct (0 <? _)%nat.
  - by rewrite insert_insert_eq.
  - by rewrite delete_delete_eq.
Qed.


Lemma run_snoc ops op : run (ops ++ [op]) = apply_op (run ops) op.
Proof. unfold run. by rewrite fold_left_app. Qed.

Lemma lookup_targets_at st key targets :
  webhookTargets st !! key = Some targets -> targets_at key st = targets.
Proof. unfold targets_at. by intros ->. Qed.

(** A lookup in the registry after [register], traced back. *)
Lemma lookup_register target st key targets :
  webhookTargets (snd (registerServerChanBotWebhookTarget target st)) !! key
    = Some targets ->
  (key = normalizeWebhookPath (target_path target)
   /\ exists r, targets = (targets_at key st ++ [r])%list
                /\ addr r = next_addr st
                /\ target_path (obj r) = key)
  \/ (key <> normalizeWebhookPath (target_path target)
      /\ webhookTargets st !! key = Some targets).
Proof.
  unfold registerServerChanBotWebhookTarget. cbn [snd webhookTargets].
  destruct (decide (key = normalizeWebhookPath (target_path target))) as [->|Hk].
  - rewrite lookup_insert_eq. intros [= <-]. left. split; [done|].
    eexists. split; [reflexivity|]. done.
  - rewrite lookup_insert_ne by done. auto.
Qed.

(** A lookup in the registry after calling an unregister closure. *)
Lemma lookup_unregister u st key targets :
  webhookTargets (unregister u st) !! key = Some targets ->
  (key = captured_key u
   /\ targets = List.filter (is_other u) (targets_at key st)
   /\ targets <> []
   /\ is_Some (webhookTargets st !! key))
  \/ (key <> captured_key u /\ webhookTargets st !! key = Some targets).
Proof.
  unfold unregister, targets_at. cbn [webhookTargets].
  destruct (decide (key = captured_key u)) as [->|Hk].
  - destruct (List.filter _ _) as [|r rest] eqn:Hf;
      cbn [List.length Nat.ltb Nat.leb].
    + by rewrite lookup_delete_eq.
    + rewrite lookup_insert_eq. intros [= <-]. left.
      repeat split; [done|].
      destruct (webhookTargets st !! captured_key u); [eauto|done].
  - destruct (0 <? _)%nat.
    + rewrite lookup_insert_ne by done. auto.
    + rewrite lookup_delete_ne by done. auto.
Qed.

Lemma registry_invariant_empty : registry_invariant empty_registry.
Proof. intros key targets. cbn. by rewrite lookup_empty. Qed.

Lemma registry_invariant_targets_at st key :
  registry_invariant st ->
  Forall (fun r => target_path (obj r) = key) (targets_at key st).
Proof.
  intros Hinv. unfold targets_at.
  destruct (webhookTargets st !! key) as [targets|] eqn:Hl; [|by constructor].
  by destruct (Hinv _ _ Hl) as (_ & _ & ?).
Qed.

Lemma registry_invariant_apply st op :
  registry_invariant st -> registry_invariant (apply_op st op).
Proof.
  intros Hinv key targets Hl. destruct op as [target|u]; cbn [apply_op] in Hl.
  - apply lookup_register in Hl as [(Hk & r & -> & _ & Hpath)|[_ Hl]]; [|eauto].
    split; [by destruct (targets_at key st)|].
    split; [eauto|].
    apply Forall_app. split; [by apply registry_invariant_targets_at|].
    by constructor.
  - apply lookup_unregister in Hl as [(Hk & -> & Hne & [old Hold])|[_ Hl]]; [|eauto].
    split; [done|]. destruct (Hinv _ _ Hold) as (_ & Hraw & _).
    split; [done|].
    apply List.Forall_forall. intros r [Hr _]%List.filter_In.
    pose proof (registry_invariant_targets_at st key Hinv) as Hall.
    by apply (proj1 (List.Forall_forall _ _) Hall).
Qed.

Lemma registry_invariant_run ops : registry_invariant (run ops).
Proof.
  induction ops as [|op ops IH] using rev_ind.
  - apply registry_invariant_empty.
  - rewrite run_snoc. by apply registry_invariant_apply.
Qed.


Lemma addresses_allocated_empty : addresses_allocated empty_registry.
Proof. intros key targets. cbn. by rewrite lookup_empty. Qed.

Lemma addresses_allocated_targets_at st key :
  addresses_allocated st ->
  Forall (fun r => (addr r < next_addr st)%nat) (targets_at key st)
  /\ List.NoDup (List.map addr (targets_at key st)).
Proof.
  intros Hinv. unfold targets_at.
  destruct (webhookTargets st !! key) as [targets|] eqn:Hl;
    [exact (Hinv _ _ Hl)|].
  split; constructor.
Qed.

Lemma NoDup_map_filter {A B} (g : A -> B) (f : A -> bool) (l : list A) :
  List.NoDup (List.map g l) -> List.NoDup (List.map g (List.filter f l)).
Proof.
  induction l as [|x l IH]; [done|]. simpl.
  intros Hnd. inversion Hnd as [|? ? Hx Hl]; subst.
  destruct (f x); [|by apply IH]. simpl. constructor; [|by apply IH].
  intros (y & Hy & [Hin _]%List.filter_In)%List.in_map_iff.
  apply Hx. apply List.in_map_iff. eauto.
Qed.

Lemma addresses_allocated_apply st op :
  addresses_allocated st -> addresses_allocated (apply_op st op).
Proof.
  intros Hinv key targets Hl. destruct op as [target|u]; cbn [apply_op] in Hl |- *.
  - assert (next_addr (snd (registerServerChanBotWebhookTarget target st))
            = S (next_addr st)) as -> by done.
    destruct (addresses_allocated_targets_at st key Hinv) as [Hlt Hnd].
    apply lookup_register in Hl as [(Hk & r & -> & Hr & _)|[_ Hl]].
    + split.
      * apply Forall_app. split.
        -- eapply List.Forall_impl; [|exact Hlt]. simpl. lia.
        -- constructor; [lia|constructor].
      * rewrite List.map_app. simpl.
        apply List.NoDup_app; [done|repeat constructor; by intros []|].
        intros a Ha [<-|[]].
        apply List.in_map_iff in Ha as (r' & Hr' & Hin).
        pose proof (proj1 (List.Forall_forall _ _) Hlt r' Hin) as Hlt'.
        simpl in Hlt'. lia.
    + destruct (Hinv _ _ Hl) as [Hlt' Hnd']. split; [|done].
      eapply List.Forall_impl; [|exact Hlt']. simpl. lia.
  - assert (next_addr (unregister u st) = next_addr st) as -> by done.
    apply lookup_unregister in Hl as [(Hk & -> & _ & _)|[_ Hl]]; [|eauto].
    destruct (addresses_allocated_targets_at st key Hinv) as [Hlt Hnd].
    split; [|by apply NoDup_map_filter].
    apply List.Forall_forall. intros r [Hr _]%List.filter_In.
    by apply (proj1 (List.Forall_forall _ _) Hlt).
Qed.

Lemma addresses_allocated_run ops : addresses_allocated (run ops).
Proof.
  induction ops as [|op ops IH] using rev_ind.
  - apply addresses_allocated_empty.
  - rewrite run_snoc. by apply addresses_allocated_apply.
Qed.

(** Among entries with distinct addresses the closure's filter drops
    at most one. *)
Lemma filter_is_other_length u (l : list TargetRef) :
  List.NoDup (List.map addr l) ->
  (List.length l <= S (List.length (List.filter (is_other u) l)))%nat.
Proof.
  induction l as [|x l IH]; [simpl; lia|]. simpl.
  intros Hnd. inversion Hnd as [|? ? Hx Hl]; subst.
  destruct (is_other u x) eqn:Hox; simpl; [specialize (IH Hl); lia|].
  assert (List.filter (is_other u) l = l) as ->; [|lia].
  apply List.forallb_filter_id. apply List.forallb_forall. intros y Hy.
  unfold is_other in *. apply negb_false_iff, Nat.eqb_eq in Hox.
  apply negb_true_iff, Nat.eqb_neq. intros Heq. apply Hx.
  apply List.in_map_iff. exists y. split; [congruence|done].
Qed.

(** Addresses are handed out in increasing order. *)
Lemma next_addr_apply_op st op : (next_addr st <= next_addr (apply_op st op))%nat.
Proof. destruct op; cbn; lia. Qed.

Lemma next_addr_fold later st :
  (next_addr st <= next_addr (fold_left apply_op later st))%nat.
Proof.
  revert st. induction later as [|op later IH]; intros st; [done|].
  cbn. pose proof (next_addr_apply_op st op). pose proof (IH (apply_op st op)). lia.
Qed.

Lemma run_app ops later : run (ops ++ later) = fold_left apply_op later (run ops).
Proof. unfold run. by rewrite fold_left_app. Qed.

Lemma spent_after_unregister u st :
  (captured_target u < next_addr st)%nat -> spent u (unregister u st).
Proof.
  intros Hlt. split; [done|].
  rewrite targets_at_unregister, decide_True by done.
  apply List.Forall_forall. intros r [_ Hr]%List.filter_In.
  unfold is_other in Hr. by apply negb_true_iff, Nat.eqb_neq in Hr.
Qed.

Lemma spent_apply_op u st op : spent u st -> spent u (apply_op st op).
Proof.
  intros [Hlt Hall]. split.
  - pose proof (next_addr_apply_op st op). lia.
  - destruct op as [target|u']; cbn [apply_op].
    + rewrite targets_at_register. case_decide; [|done].
      apply Forall_app. split; [done|]. constructor; [|constructor].
      cbn. lia.
    + rewrite targets_at_unregister. case_decide; [|done].
      apply List.Forall_forall. intros r [Hr _]%List.filter_In.
      by apply (proj1 (List.Forall_forall _ _) Hall).
Qed.

Lemma spent_fold u later st :
  spent u st -> spent u (fold_left apply_op later st).
Proof.
  revert st. induction later as [|op later IH]; intros st Hs; [done|].
  cbn. apply IH. by apply spent_apply_op.
Qed.

Lemma registry_invariant_fold later st :
  registry_invariant st -> registry_invariant (fold_left apply_op later st).
Proof.
  revert st. induction later as [|op later IH]; intros st Hs; [done|].
  cbn. apply IH. by apply registry_invariant_apply.
Qed.

(** Calling a spent closure changes nothing. *)
Lemma unregister_spent u st :
  registry_invariant st -> spent u st -> unregister u st = st.
Proof.
  intros Hinv [_ Hall]. unfold targets_at in Hall.
  assert (List.filter (is_other u) (default [] (webhookTargets st !! captured_key u))
          = default [] (webhookTargets st !! captured_key u)) as Hid.
  { apply List.forallb_filter_id, List.forallb_forall. intros r Hr.
    unfold is_other. apply negb_true_iff, Nat.eqb_neq.
    by apply (proj1 (List.Forall_forall _ _) Hall). }
  unfold unregister. rewrite Hid. destruct st as [next targets]. cbn in *. f_equal.
  destruct (targets !! captured_key u) as [l|] eqn:Hl; cbn.
  - destruct (Hinv _ _ Hl) as [Hne _]. destruct l as [|r l]; [done|].
    cbn. by apply insert_id.
  - by apply delete_id.
Qed.

(** Among entries with distinct addresses the closure's filter drops
    exactly one when an entry carries the captured address. *)
Lemma filter_is_other_removes_one u (l : list TargetRef) x :
  List.NoDup (List.map addr l) -> In x l -> addr x = captured_target u ->
  List.length l = S (List.length (List.filter (is_other u) l)).
Proof.
  intros Hnd Hin Hx. induction l as [|y l IH]; [done|].
  inversion Hnd as [|? ? Hy Hl]; subst. cbn [List.filter].
  destruct Hin as [->|Hin].
  - assert (is_other u x = false) as ->
      by (unfold is_other; by rewrite Hx, Nat.eqb_refl).
    assert (List.filter (is_other u) l = l) as ->; [|done].
    apply List.forallb_filter_id, List.forallb_forall. intros z Hz.
    unfold is_other. apply negb_true_iff, Nat.eqb_neq. intros Heq. apply Hy.
    apply List.in_map_iff. exists z. split; [congruence|done].
  - assert (is_other u y = true) as ->.
    { unfold is_other. apply negb_true_iff, Nat.eqb_neq. intros Heq. apply Hy.
      apply List.in_map_iff. exists x. split; [congruence|done]. }
    cbn [List.length]. by rewrite (IH Hl Hin).
Qed.

(** Once an address has been handed out, the entry that carries it is
    the only one that ever will. *)
Lemma identified_apply_op entry st op :
  (addr entry < next_addr st)%nat ->
  (forall k r, In r (targets_at k st) -> addr r = addr entry -> r = entry) ->
  forall k r, In r (targets_at k (apply_op st op)) -> addr r = addr entry -> r = entry.
Proof.
  intros Hlt Hid k r. destruct op as [target|u]; cbn [apply_op].
  - rewrite targets_at_register. case_decide; [|by apply Hid].
    intros [Hin|[<-|[]]]%List.in_app_iff; [by apply (Hid k)|].
    cbn. lia.
  - rewrite targets_at_unregister. case_decide; [|by apply Hid].
    intros [Hin _]%List.filter_In. by apply (Hid k).
Qed.

Lemma identified_fold entry later st :
  (addr entry < next_addr st)%nat ->
  (forall k r, In r (targets_at k st) -> addr r = addr entry -> r = entry) ->
  forall k r,
    In r (targets_at k (fold_left apply_op later st)) ->
    addr r = addr entry -> r = entry.
Proof.
  revert st. induction later as [|op later IH]; intros st Hlt Hid; [done|].
  cbn [fold_left]. apply IH.
  - pose proof (next_addr_apply_op st op). lia.
  - by apply identified_apply_op.
Qed.

(** The entry [register] stores is the one its address identifies. *)
Lemma identified_register target st :
  addresses_allocated st ->
  forall k r,
    In r (targets_at k (apply_op st (Register target))) ->
    addr r = next_addr st ->
    r = {| addr := next_addr st;
           obj := {| target_account := target_account target;
                     target_config := target_config target;
                     target_botToken := target_botToken target;
                     target_path := normalizeWebhookPath (target_path target);
                     target_secret := target_secret target |} |}.
Proof.
  intros Halloc k r. cbn [apply_op]. rewrite targets_at_register.
  destruct (addresses_allocated_targets_at st k Halloc) as [Hlt _].
  assert (In r (targets_at k st) -> addr r = next_addr st -> False) as Hold.
  { intros Hin Heq.
    pose proof (proj1 (List.Forall_forall _ _) Hlt r Hin) as Hr. cbn in Hr. lia. }
  case_decide as Hk; [|by intros Hin Heq; destruct (Hold Hin Heq)].
  subst k. intros [Hin|[<-|[]]]%List.in_app_iff Heq; [by destruct (Hold Hin Heq)|done].
Qed.

(** An entry stays registered under every operation other than a call
    of its own closure. *)
Lemma entry_kept_apply_op own entry st op :
  captured_target own = addr entry ->
  op <> CallUnregister own ->
  In entry (targets_at (captured_key own) st) ->
  In entry (targets_at (captured_key own) (apply_op st op)).
Proof.
  intros Haddr Hop Hin. destruct op as [target|u]; cbn [apply_op].
  - rewrite targets_at_register. case_decide; [|done].
    apply List.in_app_iff. by left.
  - rewrite targets_at_unregister. case_decide as Hk; [|done].
    apply List.filter_In. split; [done|].
    unfold is_other. apply negb_true_iff, Nat.eqb_neq. intros Heq.
    apply Hop. f_equal. destruct u, own. cbn in *. congruence.
Qed.

Lemma entry_kept_fold own entry between st :
  captured_target own = addr entry ->
  ~ In (CallUnregister own) between ->
  In entry (targets_at (captured_key own) st) ->
  In entry (targets_at (captured_key own) (fold_left apply_op between st)).
Proof.
  intros Haddr. revert st.
  induction between as [|op between IH]; intros st Hnot Hin; [done|].
  cbn [fold_left]. apply IH.
  - intros Hlater. apply Hnot. by right.
  - apply entry_kept_apply_op; [done| |done].
    intros ->. apply Hnot. by left.
Qed.

End RegistryFacts.

(** C9: calling the closure returned by [register] a second time changes
    nothing; a call removes, at the closure's path, the entries at the
    captured address and nothing else, every other target at that path
    and at any other path staying registered; in a registry built by
    [register] and [unregister] calls that is at most one entry; there
    a closure that has been called once stays without effect whatever
    was registered or unregistered in between.  And the closure that
    [register] returns is tied to the entry that very call appended:
    the entry stays registered until the closure is called, the call
    removes that entry and no other, at any path, and the list at its
    path gets shorter by exactly one. *)
Theorem unregister_idempotent (u : Unregister) (st : Registry) :
  unregister u (unregister u st) = unregister u st
  /\ (forall key r,
        In r (targets_at key (unregister u st)) <->
        In r (targets_at key st)
        /\ ~ (key = captured_key u /\ addr r = captured_target u))
  /\ (forall ops key,
        (List.length (targets_at key (run ops))
         <= S (List.length (targets_at key (unregister u (run ops)))))%nat)
  /\ (forall ops target between later,
        let own := fst (registerServerChanBotWebhookTarget target (run ops)) in
        let final := run (ops ++ Register target :: between
                              ++ CallUnregister own :: later) in
        unregister own final = final)
  /\ (forall ops target between,
        let key := normalizeWebhookPath (target_path target) in
        let entry :=
          {| addr := next_addr (run ops);
             obj := {| target_account := target_account target;
                       target_config := target_config target;
                       target_botToken := target_botToken target;
                       target_path := key;
                       target_secret := target_secret target |} |} in
        let own := fst (registerServerChanBotWebhookTarget target (run ops)) in
        let reached := run (ops ++ Register target :: between) in
        (~ In (CallUnregister own) between -> In entry (targets_at key reached))
        /\ (forall k r,
              In r (targets_at k (unregister own reached)) <->
              In r (targets_at k reached) /\ r <> entry)
        /\ (In entry (targets_at key reached) ->
            List.length (targets_at key reached)
            = S (List.length (targets_at key (unregister own reached))))).
Proof.
  split; [apply unregister_twice|]. split; [|split; [|split]].
  - intros key r. rewrite targets_at_unregister. case_decide as Hk.
    + rewrite List.filter_In. unfold is_other.
      rewrite negb_true_iff, Nat.eqb_neq. tauto.
    + tauto.
  - intros ops key. rewrite targets_at_unregister. case_decide as Hk; [|lia].
    apply filter_is_other_length.
    apply (addresses_allocated_targets_at _ _ (addresses_allocated_run ops)).
  - intros ops target between later own final. subst final.
    rewrite run_app. cbn [fold_left].
    rewrite fold_left_app. cbn [fold_left].
    set (st1 := apply_op (run ops) (Register target)).
    set (st2 := fold_left apply_op between st1).
    apply unregister_spent.
    + apply registry_invariant_fold, (registry_invariant_apply _ (CallUnregister own)).
      apply registry_invariant_fold, registry_invariant_apply, registry_invariant_run.
    + apply spent_fold, spent_after_unregister.
      assert (captured_target own < next_addr st1)%nat as Hlt by (cbn; lia).
      pose proof (next_addr_fold between st1) as Hmono. fold st2 in Hmono. lia.
  - intros ops target between key entry own reached.
    assert (reached = fold_left apply_op between (apply_op (run ops) (Register target)))
      as Hreached by (subst reached; by rewrite run_app).
    assert (captured_key own = key) as Hkey by done.
    assert (captured_target own = addr entry) as Haddr by done.
    assert (forall k r, In r (targets_at k reached) -> addr r = addr entry -> r = entry)
      as Hid.
    { rewrite Hreached. apply identified_fold; [cbn; lia|].
      intros k r Hin Heq.
      apply (identified_register target (run ops) (addresses_allocated_run ops) k r Hin Heq). }
    assert (registry_invariant reached) as Hinv by apply registry_invariant_run.
    split; [|split].
    + intros Hnot. rewrite Hreached, <- Hkey.
      apply entry_kept_fold; [done|done|].
      rewrite Hkey. cbn [apply_op]. rewrite targets_at_register, decide_True by done.
      apply List.in_app_iff. right. by left.
    + intros k r. rewrite targets_at_unregister. case_decide as Hk.
      * rewrite List.filter_In. unfold is_other.
        rewrite negb_true_iff, Nat.eqb_neq, Haddr.
        split; intros [Hin Hne]; (split; [done|]).
        -- by intros ->.
        -- intros Heq. by apply Hne, (Hid k).
      * split; [|tauto]. intros Hin. split; [done|]. intros ->.
        pose proof (registry_invariant_targets_at reached k Hinv) as Hall.
        pose proof (proj1 (List.Forall_forall _ _) Hall entry Hin) as Hpath.
        cbn in Hpath. congruence.
    + intros Hin. rewrite targets_at_unregister, decide_True by done.
      apply (filter_is_other_removes_one own _ entry); [|done|done].
      apply (addresses_allocated_targets_at _ _ (addresses_allocated_run _)).
Qed.

Lemma unregister_idempotent_witness :
  let target (id secret path : string) :=
    {| target_account :=
         {| accountId := id; name := None; enabled := true;
            tokenSource := TokenConfig;
            config := {| botToken := Some "token"; chatId := None;
                         webhookUrl := None; webhookSecret := Some secret;
                         webhookPath := Some path; dmPolicy := None;
                         allowFrom := None; pollingEnabled := None;
                         pollingIntervalMs := Some 3000 |} |};
       target_config := JObj [];
       target_botToken := "token";
       target_path := path;
       target_secret := Some secret |} in
  let first := target "home" "alpha" "/hook" in
  let second := target "work" "beta" "hook/" in
  let own := fst (registerServerChanBotWebhookTarget second (run [Register first])) in
  let reached := run [Register first; Register second] in
  List.map (fun r => accountId (target_account (obj r))) (targets_at "/hook" reached)
  = ["home"; "work"]
  /\ List.length (targets_at "/hook" reached)
     = S (List.length (targets_at "/hook" (unregister own reached)))
  /\ (forall r, In r (targets_at "/hook" (unregister own reached)) ->
        accountId (target_account (obj r)) = "home").
Proof.
  intros target first second own reached.
  destruct (unregister_idempotent own reached) as (_ & _ & _ & _ & Htied).
  destruct (Htied [Register first] second []) as (Hkept & Hexact & Hone).
  split; [reflexivity|]. split.
  - apply Hone, Hkept. by intros [].
  - intros r Hr. apply (Hexact "/hook" r) in Hr as [Hin Hne].
    destruct Hin as [<-|[<-|[]]]; [reflexivity|by destruct Hne].
Defined.

(** C10: after any sequence of [register] and [unregister] calls, every
    key of the registry is a normalized path that maps to a non-empty
    list of targets, and the [path] of every target stored under a key is
    that key; no key is left with an empty list, [unregister] deleting
    the key of the last target it removes. *)
Theorem registry_invariant_holds (ops : list Op) :
  registry_invariant (run ops)
  /\ (forall key, webhookTargets (run ops) !! key <> Some [])
  /\ (forall u key,
        webhookTargets (unregister u (run ops)) !! key <> Some []).
Proof.
  split; [apply registry_invariant_run|]. split.
  - intros key Hl.
    by destruct (registry_invariant_run ops _ _ Hl) as [Hne _].
  - intros u key Hl.
    pose proof (registry_invariant_run (ops ++ [CallUnregister u])) as Hinv.
    rewrite run_snoc in Hinv.
    by destruct (Hinv _ _ Hl) as [Hne _].
Qed.

(** ** Webhook router *)

Section Router.

Lemma truthy_string_nonempty s : s <> "" -> truthy_string s = true.
Proof. unfold truthy_string. by destruct (String.eqb_spec s ""). Qed.

Lemma secret_matches_eq headers r s :
  target_secret (obj r) = Some s -> s <> "" ->
  secret_matches headers r = bool_decide (secretValue headers = Some s).
Proof.
  intros Hs Hne. unfold secret_matches. rewrite Hs.
  by rewrite (truthy_string_nonempty _ Hne).
Qed.

(** Selection among two targets that both carry a secret. *)
Lemma selectWebhookTarget_two_secrets headers r1 r2 s1 s2 :
  target_secret (obj r1) = Some s1 -> target_secret (obj r2) = Some s2 ->
  s1 <> "" -> s2 <> "" ->
  selectWebhookTarget [r1; r2] headers =
  if bool_decide (secretValue headers = Some s1) then Some r1
  else if bool_decide (secretValue headers = Some s2) then Some r2
  else None.
Proof.
  intros H1 H2 Hn1 Hn2. unfold selectWebhookTarget. cbn [List.find List.filter].
  rewrite (secret_matches_eq _ _ _ H1 Hn1), (secret_matches_eq _ _ _ H2 Hn2).
  unfold no_secret. rewrite H1, H2.
  rewrite (truthy_string_nonempty _ Hn1), (truthy_string_nonempty _ Hn2).
  cbn [negb]. by repeat case_bool_decide.
Qed.

(** A POST with a well-shaped body, once a target is selected, is
    acknowledged and handed to the Update Processor for that target. *)
Lemma handle_post_selected st pathname headers body update targets selected :
  webhookTargets st !! normalizeWebhookPath pathname = Some targets ->
  targets <> [] ->
  selectWebhookTarget targets headers = Some selected ->
  parseWebhookPayload body = Some update ->
  handleServerChanBotWebhookRequest st pathname "POST" headers (ReadOk body)
  = {| handled := true;
       response := Some {| statusCode := 200; allow := None; sent := "ok" |};
       processing := Some (update, selected) |}.
Proof.
  intros Hl Hne Hsel Hparse. unfold handleServerChanBotWebhookRequest.
  rewrite Hl. destruct targets as [|r rest]; [done|].
  cbn [String.eqb Ascii.eqb Bool.eqb negb andb]. by rewrite Hsel, Hparse.
Qed.

End Router.

(** C1: at a path where two targets with distinct non-empty secrets are
    registered, a POST whose secret header carries the secret of one of
    them is handed to the Update Processor with that target, in either
    order, and so never with the other one. *)
Theorem dispatch_selects_secret_owner
    (st : Registry) (pathname : string) (headers : gmap string header_value)
    (body : value) (update : ServerChanUpdate)
    (r1 r2 : TargetRef) (s1 s2 : string) :
  webhookTargets st !! normalizeWebhookPath pathname = Some [r1; r2] ->
  target_secret (obj r1) = Some s1 ->
  target_secret (obj r2) = Some s2 ->
  s1 <> "" -> s2 <> "" -> s1 <> s2 ->
  parseWebhookPayload body = Some update ->
  let outcome :=
    handleServerChanBotWebhookRequest st pathname "POST" headers (ReadOk body) in
  (secretValue headers = Some s1 ->
     selectWebhookTarget [r1; r2] headers = Some r1
     /\ processing outcome = Some (update, r1)
     /\ processing outcome <> Some (update, r2))
  /\ (secretValue headers = Some s2 ->
       selectWebhookTarget [r1; r2] headers = Some r2
       /\ processing outcome = Some (update, r2)
       /\ processing outcome <> Some (update, r1)).
Proof.
  intros Hl H1 H2 Hn1 Hn2 Hne Hparse outcome.
  pose proof (selectWebhookTarget_two_secrets headers r1 r2 s1 s2 H1 H2 Hn1 Hn2) as Hsel.
  assert (r1 <> r2) as Hr by (intros ->; congruence).
  split; intros Hv.
  - rewrite bool_decide_eq_true_2 in Hsel by done.
    split; [done|]. subst outcome.
    rewrite (handle_post_selected _ _ _ _ _ _ _ Hl ltac:(done) Hsel Hparse).
    cbn [processing]. split; [done|]. congruence.
  - rewrite bool_decide_eq_false_2 in Hsel by congruence.
    rewrite bool_decide_eq_true_2 in Hsel by done.
    split; [done|]. subst outcome.
    rewrite (handle_post_selected _ _ _ _ _ _ _ Hl ltac:(done) Hsel Hparse).
    cbn [processing]. split; [done|]. congruence.
Qed.

Lemma dispatch_selects_secret_owner_witness :
  let target (id secret path : string) :=
    {| target_account :=
         {| accountId := id; name := None; enabled := true;
            tokenSource := TokenConfig;
            config := {| botToken := Some "token"; chatId := None;
                         webhookUrl := None; webhookSecret := Some secret;
                         webhookPath := Some path; dmPolicy := None;
                         allowFrom := None; pollingEnabled := None;
                         pollingIntervalMs := Some 3000 |} |};
       target_config := JObj [];
       target_botToken := "token";
       target_path := path;
       target_secret := Some secret |} in
  let st := run [Register (target "home" "alpha" "/hook");
                 Register (target "work" "beta" "hook/")] in
  let headers : gmap string header_value := {[ HEADER_LOWER := HStr "beta" ]} in
  let body :=
    JObj [("ok", JBool true); ("update_id", JNum 5);
          ("message", JObj [("message_id", JNum 1); ("chat_id", JNum 42);
                            ("text", JStr "hi")])] in
  exists update selected,
    processing (handleServerChanBotWebhookRequest st "/hook/" "POST" headers
                  (ReadOk body)) = Some (update, selected)
    /\ accountId (target_account (obj selected)) = "work"
    /\ addr selected = 1%nat.
Proof.
  intros target st headers body.
  pose (r1 := {| addr := 0;
                 obj := {| target_account := target_account (target "home" "alpha" "/hook");
                           target_config := JObj []; target_botToken := "token";
                           target_path := "/hook"; target_secret := Some "alpha" |} |}).
  pose (r2 := {| addr := 1;
                 obj := {| target_account := target_account (target "work" "beta" "hook/");
                           target_config := JObj []; target_botToken := "token";
                           target_path := "/hook"; target_secret := Some "beta" |} |}).
  pose (update := {| update_id := 5;
                     message := {| message_id := 1; chat_id := Some 42;
                                   chat := None; from := None; text := "hi";
                                   date := None |} |}).
  destruct (dispatch_selects_secret_owner st "/hook/" headers body update
              r1 r2 "alpha" "beta") as [_ Hsecond];
    [vm_compute; reflexivity | reflexivity | reflexivity
    | discriminate | discriminate | discriminate | reflexivity |].
  destruct Hsecond as (_ & Hprocessing & _); [vm_compute; reflexivity|].
  exists update, r2. split; [exact Hprocessing|]. split; reflexivity.
Defined.

(** ** Account listing *)

Section Accounts.
Variable DEFAULT_ACCOUNT_ID : string.

(** Without a usable [accounts] object the listing is the default
    identifier alone. *)
Lemma listServerChanBotAccountIds_no_accounts cfg :
  let accounts := get "accounts" (get "serverchan-bot" (get "channels" cfg)) in
  truthy accounts = false \/ typeof accounts <> TObject ->
  listServerChanBotAccountIds DEFAULT_ACCOUNT_ID cfg = [DEFAULT_ACCOUNT_ID].
Proof.
  intros accounts Hacc. unfold listServerChanBotAccountIds.
  destruct (truthy (get "serverchan-bot" (get "channels" cfg))); [|done].
  fold accounts. cbn [negb].
  destruct Hacc as [->|Hty]; [done|].
  rewrite bool_decide_eq_false_2 by done. by rewrite orb_true_r.
Qed.

(** The default identifier is always listed. *)
Lemma listServerChanBotAccountIds_has_default cfg :
  In DEFAULT_ACCOUNT_ID (listServerChanBotAccountIds DEFAULT_ACCOUNT_ID cfg).
Proof.
  unfold listServerChanBotAccountIds.
  repeat case_match; try (by left).
  rewrite negb_false_iff in *.
  match goal with H : existsb _ _ = true |- _ =>
    apply List.existsb_exists in H as (id & Hin & ->%String.eqb_eq) end.
  done.
Qed.

(** It comes first whenever the code has to add it. *)
Lemma listServerChanBotAccountIds_unlisted_default_first cfg :
  let accounts := get "accounts" (get "serverchan-bot" (get "channels" cfg)) in
  ~ In DEFAULT_ACCOUNT_ID (keys accounts) ->
  head (listServerChanBotAccountIds DEFAULT_ACCOUNT_ID cfg) = Some DEFAULT_ACCOUNT_ID.
Proof.
  intros accounts Hnot. unfold listServerChanBotAccountIds. fold accounts.
  repeat case_match; try done.
  rewrite negb_false_iff in *.
  match goal with H : existsb _ _ = true |- _ =>
    apply List.existsb_exists in H as (id & [Hin _]%List.filter_In & ->%String.eqb_eq) end.
  done.
Qed.

End Accounts.

(** C3, at the failing input: with accounts [work] and [default]
    configured in that order, the listing is [work, default]; the
    default identifier is present but not first. *)
Theorem listServerChanBotAccountIds_default_second :
  let cfg :=
    JObj [("channels",
           JObj [("serverchan-bot",
                  JObj [("accounts",
                         JObj [("work", JObj []); ("default", JObj [])])])])] in
  listServerChanBotAccountIds "default" cfg = ["work"; "default"]
  /\ head (listServerChanBotAccountIds "default" cfg) <> Some "default".
Proof. vm_compute. split; [reflexivity|discriminate]. Qed.

(** ** Mode decision *)

(** C8: the two decisions of [startAccount] are complementary.  An
    explicit [pollingEnabled] settles both (poll iff [true], webhook iff
    [false]); when it is unset, webhook mode is chosen exactly when one
    of [webhookUrl], [webhookPath], [webhookSecret] is non-blank, and
    polling otherwise.  The run of [startAccount] follows them: the
    polling loop is entered iff the poll decision says so, and a webhook
    target is registered only under the webhook decision, never
    alongside polling. *)
Theorem mode_decision (account : ResolvedServerChanBotAccount) :
  shouldPoll account = negb (wantsWebhook account)
  /\ match pollingEnabled (config account) with
     | Some b => shouldPoll account = b /\ wantsWebhook account = negb b
     | None =>
         let any_webhook_field :=
           nonblank (webhookUrl (config account))
           || nonblank (webhookPath (config account))
           || nonblank (webhookSecret (config account)) in
         wantsWebhook account = any_webhook_field
         /\ shouldPoll account = negb any_webhook_field
     end
  /\ (forall URL_pathname cfg st started,
        startAccount URL_pathname account cfg st = Some started ->
        polling started = shouldPoll account
        /\ (is_Some (on_abort started) -> wantsWebhook account = true)
        /\ (polling started = true ->
            on_abort started = None /\ registry_after started = st)).
Proof.
  assert (shouldPoll account = negb (wantsWebhook account)) as Hcompl.
  { unfold shouldPoll, wantsWebhook.
    destruct (pollingEnabled (config account)) as [b|]; [|done].
    by rewrite negb_involutive. }
  split; [done|]. split.
  - unfold shouldPoll, wantsWebhook, hasWebhookConfig.
    by destruct (pollingEnabled (config account)).
  - intros URL_pathname cfg st started. unfold startAccount.
    destruct (botToken (config account)) as [token|]; [|done].
    destruct (negb (truthy_string token)); [done|].
    destruct (wantsWebhook account) eqn:Hw.
    + cbn [andb]. case_match.
      * intros [= <-]. cbn. rewrite Hcompl. cbn.
        split; [done|]. split; [done|]. intros [=].
      * intros [= <-]. cbn. rewrite Hcompl. cbn.
        split; [done|]. split; [by intros [? [=]]|]. intros [=].
    + cbn [andb]. intros [= <-]. cbn.
      split; [done|]. split; [by intros [? [=]]|]. done.
Qed.

Lemma mode_decision_witness :
  let account :=
    {| accountId := "default"; name := None; enabled := true;
       tokenSource := TokenConfig;
       config := {| botToken := Some "token"; chatId := None;
                    webhookUrl := None; webhookSecret := Some " s3cret ";
                    webhookPath := None; dmPolicy := None; allowFrom := None;
                    pollingEnabled := None; pollingIntervalMs := Some 3000 |} |} in
  let url_pathname (_ : string) : option string := None in
  wantsWebhook account = true
  /\ shouldPoll account = false
  /\ exists started,
      startAccount url_pathname account (JObj []) empty_registry = Some started
      /\ polling started = false
      /\ on_abort started
         = Some {| captured_key := "/serverchan-bot"; captured_target := 0 |}.
Proof.
  intros account url_pathname.
  destruct (mode_decision account) as (Hcompl & Hunset & Hstart).
  cbn in Hunset. destruct Hunset as [Hw Hp].
  split; [exact Hw|]. split; [exact Hp|].
  destruct (startAccount url_pathname account (JObj []) empty_registry)
    as [started|] eqn:Hs; [|vm_compute in Hs; discriminate Hs].
  destruct (Hstart _ _ _ _ Hs) as (Hpoll & _).
  exists started. split; [reflexivity|]. split; [by rewrite Hpoll|].
  vm_compute in Hs. injection Hs as <-. reflexivity.
Defined.

(** ** Polling loop *)

Section PollingFacts.
Variable onUpdate : ServerChanUpdate -> bool.

(** A rejected fetch runs the [catch] block: log, then a five-second
    sleep; the cursor stays. *)
Lemma poll_iteration_fetch_rejects reason offset :
  poll_iteration onUpdate (FetchRejects reason) offset
  = (offset, [GetUpdates 30 offset; ConsoleError; Sleep 5000]).
Proof. reflexivity. Qed.

(** A non-2xx response is returned as [{ok: false}], not thrown: the
    iteration ends after the fetch. *)
Lemma poll_iteration_non_2xx status statusText json offset :
  response_ok status = false ->
  poll_iteration onUpdate (FetchResolves status statusText json) offset
  = (offset, [GetUpdates 30 offset]).
Proof. intros H. unfold poll_iteration, serverChanBotGetUpdates. by rewrite H. Qed.

(** The loop returns exactly when some loop head finds the signal
    aborted; no fetch outcome ends it. *)
Lemma poll_loop_returns_iff_aborted env offset :
  (poll_loop onUpdate env offset).1.1 = Returned
  <-> Exists (fun tick => aborted tick = true) env.
Proof.
  revert offset. induction env as [|tick env IH]; intros offset.
  - cbn. split; [done|]. by intros ?%Exists_nil.
  - cbn [poll_loop]. destruct (aborted tick) eqn:Ha.
    + cbn. split; [|done]. intros _. by left.
    + destruct (poll_iteration onUpdate (fetch tick) offset) as [offset' events].
      specialize (IH offset').
      destruct (poll_loop onUpdate env offset') as [[status offset''] events'].
      cbn in *. rewrite IH. rewrite Exists_cons. split; [tauto|].
      intros [?|?]; [congruence|done].
Qed.

End PollingFacts.

(** C2, at the failing input: when the fetch resolves with HTTP 500 the
    iteration consists of the request alone: nothing is logged and
    nothing is slept before the next iteration refetches. *)
Theorem poll_iteration_http_500_no_backoff
    (onUpdate : ServerChanUpdate -> bool) (offset : Z) :
  let iteration :=
    poll_iteration onUpdate (FetchResolves 500 "Internal Server Error" None) offset in
  iteration = (offset, [GetUpdates 30 offset])
  /\ ~ In ConsoleError iteration.2
  /\ ~ In (Sleep 5000) iteration.2.
Proof.
  cbn. split; [reflexivity|]. split; intros [H|[]]; discriminate H.
Qed.

(** C7: when the fetch yields the single update 5 with [chat_id] 42, one
    iteration, from any cursor and in particular the first one of the
    loop, moves the cursor to 6 and calls [onUpdate] once, with that
    update; the Update Processor, run on it, addresses chat ["42"].  The
    chat identifier is the nested [chat.id], else [chat_id], else
    [from.id]. *)
Theorem polling_happy_path
    (onUpdate : ServerChanUpdate -> bool) (offset now : Z)
    (account : ResolvedServerChanBotAccount) :
  let update :=
    {| update_id := 5;
       message := {| message_id := 1; chat_id := Some 42; chat := None;
                     from := None; text := "hi"; date := None |} |} in
  let outcome :=
    FetchResolves 200 "OK" (Some {| ok := true; result := [update]; error := None |}) in
  poll_iteration onUpdate outcome offset
  = (6, GetUpdates 30 offset :: OnUpdate update
          :: (if onUpdate update then [] else [ConsoleError; Sleep 5000]))
  /\ monitorServerChanBotPolling onUpdate [{| aborted := false; fetch := outcome |}]
     = (Polling, 6,
        GetUpdates 30 0 :: OnUpdate update
          :: (if onUpdate update then [] else [ConsoleError; Sleep 5000]))
  /\ (exists ctx,
        processServerChanBotUpdate now update account
        = [LogReceived (accountId account) "42" "hi"; StatusInbound now;
           DispatchReply ctx]
        /\ From ctx = "42" /\ To ctx = "42" /\ SenderId ctx = "42"
        /\ SessionKey ctx = "serverchan-bot:42")
  /\ (forall u : ServerChanUpdate,
        let id_of (o : option value) :=
          match o with Some v => get "id" v | None => JUndef end in
        let nested := id_of (chat (message u)) in
        updateChatId u =
        if negb (is_nullish nested) then nested
        else match chat_id (message u) with
             | Some n => JNum n
             | None => id_of (from (message u))
             end).
Proof.
  intros update outcome. split; [|split; [|split]].
  - cbn. by destruct (onUpdate update).
  - cbn. by destruct (onUpdate update).
  - eexists. split; [reflexivity|]. by vm_compute.
  - intros u id_of nested. subst id_of nested. unfold updateChatId.
    destruct (chat (message u)) as [c|]; [destruct (get "id" c)|];
      cbn; by destruct (chat_id (message u)).
Qed.

(** * Further properties of the code *)

(** ** Path normalization *)

Section PathFacts.

Lemma prefix_slash_inv s :
  String.prefix "/" s = true -> exists rest, s = String "/" rest.
Proof.
  destruct s as [|c rest]; [discriminate|]. cbn [String.prefix].
  destruct (Ascii.ascii_dec "/" c) as [<-|]; [eauto|discriminate].
Qed.

Lemma substring_0_cons n c s :
  String.substring 0 (S n) (String c s) = String c (String.substring 0 n s).
Proof. reflexivity. Qed.

Lemma normalizeWebhookPath_slash_head raw :
  exists rest, normalizeWebhookPath raw = String "/" rest.
Proof.
  unfold normalizeWebhookPath.
  destruct (truthy_string (trim raw)); cbn [negb]; [|by exists ""].
  assert (exists rest,
            (if startsWith (trim raw) "/" then trim raw else "/" ++ trim raw)
            = String "/" rest) as [rest ->].
  { unfold startsWith. destruct (String.prefix "/" (trim raw)) eqn:Hp.
    - by apply prefix_slash_inv.
    - by exists (trim raw). }
  destruct ((1 <? String.length (String "/" rest))%nat
            && endsWith (String "/" rest) "/") eqn:Hc; [|eauto].
  apply andb_true_iff in Hc as [Hlen _]. apply Nat.ltb_lt in Hlen.
  unfold slice_0_m1. cbn [String.length] in *.
  destruct (String.length rest) as [|n] eqn:Hn; [lia|].
  replace (S (S n) - 1)%nat with (S n) by lia.
  rewrite substring_0_cons. eauto.
Qed.

End PathFacts.

(** X1: whatever the raw path, the normalized path begins with a slash;
    in particular it is never empty. *)
Theorem normalizeWebhookPath_leading_slash (raw : string) :
  exists rest, normalizeWebhookPath raw = String "/" rest.
Proof. apply normalizeWebhookPath_slash_head. Qed.

(** ** Target selection and the HTTP handler *)

Section SelectionFacts.

Lemma no_secret_not_matching headers t :
  no_secret t = true -> secret_matches headers t = false.
Proof.
  unfold no_secret, secret_matches.
  destruct (target_secret (obj t)) as [s|]; [|done]. by intros ->.
Qed.

Lemma secret_matches_inv headers t :
  secret_matches headers t = true ->
  exists s, target_secret (obj t) = Some s /\ s <> ""
            /\ secretValue headers = Some s.
Proof.
  unfold secret_matches.
  destruct (target_secret (obj t)) as [s|]; [|done].
  destruct (truthy_string s) eqn:Hs; cbn [negb]; [|done].
  intros Hv%verifyWebhookSecret_true. exists s. repeat split; [|done].
  intros ->. discriminate Hs.
Qed.

Lemma find_none_all {A} (f : A -> bool) (l : list A) :
  Forall (fun x => f x = false) l -> List.find f l = None.
Proof.
  induction 1 as [|x l Hx _ IH]; [done|]. cbn. by rewrite Hx.
Qed.

Lemma filter_all {A} (f : A -> bool) (l : list A) :
  Forall (fun x => f x = true) l -> List.filter f l = l.
Proof.
  induction 1 as [|x l Hx _ IH]; [done|]. cbn. by rewrite Hx, IH.
Qed.

Lemma filter_none {A} (f : A -> bool) (l : list A) :
  Forall (fun x => f x = false) l -> List.filter f l = [].
Proof.
  induction 1 as [|x l Hx _ IH]; [done|]. cbn. by rewrite Hx.
Qed.

(** Whatever is selected is one of the candidates, and is entitled to
    the request: it has no secret, or the header carries its secret. *)
Lemma selectWebhookTarget_sound targets headers t :
  selectWebhookTarget targets headers = Some t ->
  In t targets
  /\ (no_secret t = true
      \/ exists s, target_secret (obj t) = Some s /\ s <> ""
                   /\ secretValue headers = Some s).
Proof.
  unfold selectWebhookTarget.
  assert (forall l,
            match List.find (secret_matches headers) l with
            | Some secretTarget => Some secretTarget
            | None => match List.filter no_secret l with
                      | [t'] => Some t'
                      | _ => None
                      end
            end = Some t ->
            In t l
            /\ (no_secret t = true
                \/ exists s, target_secret (obj t) = Some s /\ s <> ""
                             /\ secretValue headers = Some s)) as Hgen.
  { intros l. destruct (List.find _ l) as [m|] eqn:Hfind.
    - intros [= ->]. apply List.find_some in Hfind as [Hin Hm].
      split; [done|]. right. by apply secret_matches_inv.
    - destruct (List.filter no_secret l) as [|t' [|]] eqn:Hfil; try done.
      intros [= ->].
      assert (In t (List.filter no_secret l)) as Hin by (rewrite Hfil; by left).
      apply List.filter_In in Hin as [Hin Hns]. auto. }
  destruct targets as [|only [|second rest]]; [done| |apply Hgen].
  destruct (no_secret only) eqn:Hns.
  - intros [= ->]. split; [by left|by left].
  - destruct (target_secret (obj only)) as [s|] eqn:Hs; [|done].
    destruct (verifyWebhookSecret headers s) eqn:Hv; [|done].
    intros [= ->]. split; [by left|]. right. exists s.
    apply verifyWebhookSecret_true in Hv. repeat split; try done.
    intros ->. unfold no_secret in Hns. rewrite Hs in Hns. discriminate Hns.
Qed.

(** No candidate whose secret matches and not exactly one without a
    secret: nobody is selected. *)
Lemma selectWebhookTarget_none targets headers :
  Forall (fun t => secret_matches headers t = false) targets ->
  List.length (List.filter no_secret targets) <> 1%nat ->
  selectWebhookTarget targets headers = None.
Proof.
  intros Hno Hlen. unfold selectWebhookTarget.
  assert (match List.find (secret_matches headers) targets with
          | Some secretTarget => Some secretTarget
          | None => match List.filter no_secret targets with
                    | [t'] => Some t'
                    | _ => None
                    end
          end = None) as Hgen.
  { rewrite (find_none_all _ _ Hno).
    by destruct (List.filter no_secret targets) as [|t' [|]]. }
  destruct targets as [|only [|second rest]]; [done| |exact Hgen].
  inversion Hno as [|? ? Honly _]; subst. cbn in Hlen.
  destruct (no_secret only) eqn:Hns; [done|].
  destruct (target_secret (obj only)) as [s|] eqn:Hs; [|done].
  unfold secret_matches in Honly. rewrite Hs in Honly.
  unfold no_secret in Hns. rewrite Hs in Hns.
  apply negb_false_iff in Hns. rewrite Hns in Honly. cbn in Honly.
  by rewrite Honly.
Qed.

(** The handler's answer once the candidates are known and nobody is
    selected. *)
Lemma handle_post_unselected st pathname headers body targets :
  webhookTargets st !! normalizeWebhookPath pathname = Some targets ->
  targets <> [] ->
  selectWebhookTarget targets headers = None ->
  handleServerChanBotWebhookRequest st pathname "POST" headers body
  = respond 401 None "unauthorized".
Proof.
  intros Hl Hne Hsel. unfold handleServerChanBotWebhookRequest.
  rewrite Hl. destruct targets as [|r rest]; [done|].
  cbn [String.eqb Ascii.eqb Bool.eqb negb andb]. by rewrite Hsel.
Qed.

End SelectionFacts.

(** X2: the Update Processor is started only for a POST that carries a
    body the parser accepts, with a target registered at the request's
    path that either has no secret or whose secret the header carries;
    the response is then 200 "ok". *)
Theorem handler_processes_only_authorized
    (st : Registry) (pathname method : string)
    (headers : gmap string header_value) (body : ReadResult)
    (update : ServerChanUpdate) (selected : TargetRef) :
  processing (handleServerChanBotWebhookRequest st pathname method headers body)
    = Some (update, selected) ->
  method = "POST"
  /\ In selected (targets_at (normalizeWebhookPath pathname) st)
  /\ (no_secret selected = true
      \/ exists s, target_secret (obj selected) = Some s /\ s <> ""
                   /\ secretValue headers = Some s)
  /\ (exists v, body = ReadOk v /\ parseWebhookPayload v = Some update)
  /\ response (handleServerChanBotWebhookRequest st pathname method headers body)
     = Some {| statusCode := 200; allow := None; sent := "ok" |}.
Proof.
  unfold handleServerChanBotWebhookRequest, targets_at.
  destruct (webhookTargets st !! normalizeWebhookPath pathname)
    as [[|r rest]|] eqn:Hl; try done.
  destruct (String.eqb_spec method "POST") as [->|Hm]; cbn [negb]; [|done].
  destruct (selectWebhookTarget (r :: rest) headers) as [sel|] eqn:Hsel; [|done].
  destruct body as [v|err]; [|done].
  destruct (parseWebhookPayload v) as [u|] eqn:Hparse; [|done].
  cbn. intros [= -> ->].
  destruct (selectWebhookTarget_sound _ _ _ Hsel) as [Hin Hauth].
  repeat split; eauto.
Qed.

Lemma handler_processes_only_authorized_witness :
  let only :=
    {| addr := 0;
       obj := {| target_account :=
                   {| accountId := "default"; name := None; enabled := true;
                      tokenSource := TokenConfig;
                      config := {| botToken := Some "token"; chatId := None;
                                   webhookUrl := None; webhookSecret := None;
                                   webhookPath := None; dmPolicy := None;
                                   allowFrom := None; pollingEnabled := Some false;
                                   pollingIntervalMs := Some 3000 |} |};
                 target_config := JObj [];
                 target_botToken := "token";
                 target_path := "/serverchan-bot";
                 target_secret := None |} |} in
  let st := {| next_addr := 1;
               webhookTargets := {[ "/serverchan-bot" := [only] ]} |} in
  let body :=
    JObj [("ok", JBool true); ("update_id", JNum 5);
          ("message", JObj [("message_id", JNum 1); ("chat_id", JNum 42);
                            ("text", JStr "hi")])] in
  In only (targets_at (normalizeWebhookPath "/serverchan-bot/") st)
  /\ no_secret only = true.
Proof.
  intros only st body.
  destruct (handler_processes_only_authorized st "/serverchan-bot/" "POST" ∅
              (ReadOk body)
              {| update_id := 5;
                 message := {| message_id := 1; chat_id := Some 42; chat := None;
                               from := None; text := "hi"; date := None |} |}
              only)
    as (_ & Hin & [Hns|(s & Hs & _)] & _); [vm_compute; reflexivity| |discriminate Hs].
  split; [exact Hin|exact Hns].
Defined.

(** X3: a path with a single target that has no secret accepts every
    POST with a well-formed body, whatever the headers say. *)
Theorem single_open_target_accepts_any_headers
    (st : Registry) (pathname : string) (headers : gmap string header_value)
    (body : value) (update : ServerChanUpdate) (only : TargetRef) :
  webhookTargets st !! normalizeWebhookPath pathname = Some [only] ->
  no_secret only = true ->
  parseWebhookPayload body = Some update ->
  handleServerChanBotWebhookRequest st pathname "POST" headers (ReadOk body)
  = {| handled := true;
       response := Some {| statusCode := 200; allow := None; sent := "ok" |};
       processing := Some (update, only) |}.
Proof.
  intros Hl Hns Hparse.
  apply (handle_post_selected _ _ _ _ _ [only]); try done.
  cbn. by rewrite Hns.
Qed.

Lemma single_open_target_accepts_any_headers_witness :
  let only :=
    {| addr := 0;
       obj := {| target_account :=
                   {| accountId := "default"; name := None; enabled := true;
                      tokenSource := TokenConfig;
                      config := {| botToken := Some "token"; chatId := None;
                                   webhookUrl := None; webhookSecret := None;
                                   webhookPath := None; dmPolicy := None;
                                   allowFrom := None; pollingEnabled := Some false;
                                   pollingIntervalMs := Some 3000 |} |};
                 target_config := JObj [];
                 target_botToken := "token";
                 target_path := "/serverchan-bot";
                 target_secret := Some "" |} |} in
  let st := {| next_addr := 1;
               webhookTargets := {[ "/serverchan-bot" := [only] ]} |} in
  let headers : gmap string header_value := {[ HEADER_LOWER := HStr "anything" ]} in
  let body :=
    JObj [("ok", JBool true); ("update_id", JNum 5);
          ("message", JObj [("message_id", JNum 1); ("chat_id", JNum 42);
                            ("text", JStr "hi")])] in
  statusCode <$> response (handleServerChanBotWebhookRequest
                             st "serverchan-bot" "POST" headers (ReadOk body))
  = Some 200.
Proof.
  intros only st headers body.
  rewrite (single_open_target_accepts_any_headers st "serverchan-bot" headers body
             {| update_id := 5;
                message := {| message_id := 1; chat_id := Some 42; chat := None;
                              from := None; text := "hi"; date := None |} |}
             only); [reflexivity|vm_compute; reflexivity|reflexivity|reflexivity].
Defined.

(** X4: when every target at a path lacks a secret and there are at
    least two of them, or when every target has a secret and the header
    carries none of them, a POST is answered 401 "unauthorized" without
    looking at the body, and nothing is processed. *)
Theorem ambiguous_or_unmatched_is_unauthorized
    (st : Registry) (pathname : string) (headers : gmap string header_value)
    (body : ReadResult) (targets : list TargetRef) :
  webhookTargets st !! normalizeWebhookPath pathname = Some targets ->
  (Forall (fun t => no_secret t = true) targets /\ (2 <= List.length targets)%nat)
  \/ (targets <> []
      /\ Forall (fun t => exists s, target_secret (obj t) = Some s /\ s <> ""
                                    /\ secretValue headers <> Some s) targets) ->
  handleServerChanBotWebhookRequest st pathname "POST" headers body
  = {| handled := true;
       response := Some {| statusCode := 401; allow := None; sent := "unauthorized" |};
       processing := None |}.
Proof.
  intros Hl Hcase.
  apply (handle_post_unselected _ _ _ _ targets); [done| |].
  - destruct Hcase as [[_ Hlen]|[Hne _]]; [|done]. by destruct targets; cbn in Hlen; [lia|].
  - apply selectWebhookTarget_none.
    + destruct Hcase as [[Hall _]|[_ Hall]].
      * eapply List.Forall_impl; [|exact Hall]. intros t. apply no_secret_not_matching.
      * eapply List.Forall_impl; [|exact Hall].
        intros t (s & Hs & Hne & Hv). unfold secret_matches. rewrite Hs.
        rewrite (truthy_string_nonempty _ Hne). cbn [negb].
        unfold verifyWebhookSecret. by apply bool_decide_eq_false_2.
    + destruct Hcase as [[Hall Hlen]|[Hne Hall]].
      * rewrite (filter_all _ _ Hall). lia.
      * rewrite filter_none; [done|].
        eapply List.Forall_impl; [|exact Hall].
        intros t (s & Hs & Hn & _). unfold no_secret. rewrite Hs.
        by rewrite (truthy_string_nonempty _ Hn).
Qed.

Lemma ambiguous_or_unmatched_is_unauthorized_witness :
  let target (a : nat) (secret : option string) :=
    {| addr := a;
       obj := {| target_account :=
                   {| accountId := "default"; name := None; enabled := true;
                      tokenSource := TokenConfig;
                      config := {| botToken := Some "token"; chatId := None;
                                   webhookUrl := None; webhookSecret := secret;
                                   webhookPath := None; dmPolicy := None;
                                   allowFrom := None; pollingEnabled := Some false;
                                   pollingIntervalMs := Some 3000 |} |};
                 target_config := JObj [];
                 target_botToken := "token";
                 target_path := "/serverchan-bot";
                 target_secret := secret |} |} in
  let open := {| next_addr := 2;
                 webhookTargets :=
                   {[ "/serverchan-bot" := [target 0%nat None; target 1%nat None] ]} |} in
  let locked := {| next_addr := 1;
                   webhookTargets :=
                     {[ "/serverchan-bot" := [target 0%nat (Some "s3cret")] ]} |} in
  let wrong : gmap string header_value := {[ HEADER_LOWER := HStr "wrong" ]} in
  statusCode <$> response (handleServerChanBotWebhookRequest
                             open "/serverchan-bot" "POST" ∅ (ReadFailed "empty payload"))
  = Some 401
  /\ statusCode <$> response (handleServerChanBotWebhookRequest
                                locked "/serverchan-bot" "POST" wrong
                                (ReadFailed "empty payload"))
     = Some 401.
Proof.
  intros target open locked wrong. split.
  - rewrite (ambiguous_or_unmatched_is_unauthorized open "/serverchan-bot" ∅
               (ReadFailed "empty payload") [target 0%nat None; target 1%nat None]);
      [reflexivity|vm_compute; reflexivity|].
    left. split; [by repeat constructor|cbn; lia].
  - rewrite (ambiguous_or_unmatched_is_unauthorized locked "/serverchan-bot" wrong
               (ReadFailed "empty payload") [target 0%nat (Some "s3cret")]);
      [reflexivity|vm_compute; reflexivity|].
    right. split; [done|]. constructor; [|constructor].
    exists "s3cret". split; [reflexivity|]. split; [discriminate|].
    vm_compute. discriminate.
Defined.

(** X5: when two targets at a path share the same non-empty secret, a
    request bearing it always goes to the one registered first; the
    later one is never selected, whatever the headers. *)
Theorem duplicate_secret_first_registered_wins
    (headers : gmap string header_value) (r1 r2 : TargetRef) (s : string) :
  target_secret (obj r1) = Some s ->
  target_secret (obj r2) = Some s ->
  s <> "" ->
  addr r1 <> addr r2 ->
  selectWebhookTarget [r1; r2] headers
  = (if bool_decide (secretValue headers = Some s) then Some r1 else None)
  /\ selectWebhookTarget [r1; r2] headers <> Some r2.
Proof.
  intros H1 H2 Hne Haddr.
  rewrite (selectWebhookTarget_two_secrets headers r1 r2 s s H1 H2 Hne Hne).
  case_bool_decide; split; try done. intros [= ->]. done.
Qed.

Lemma duplicate_secret_first_registered_wins_witness :
  let target (a : nat) (id : string) :=
    {| addr := a;
       obj := {| target_account :=
                   {| accountId := id; name := None; enabled := true;
                      tokenSource := TokenConfig;
                      config := {| botToken := Some "token"; chatId := None;
                                   webhookUrl := None; webhookSecret := Some "same";
                                   webhookPath := None; dmPolicy := None;
                                   allowFrom := None; pollingEnabled := Some false;
                                   pollingIntervalMs := Some 3000 |} |};
                 target_config := JObj [];
                 target_botToken := "token";
                 target_path := "/serverchan-bot";
                 target_secret := Some "same" |} |} in
  let headers : gmap string header_value := {[ HEADER_LOWER := HStr "same" ]} in
  selectWebhookTarget [target 0%nat "home"; target 1%nat "work"] headers
  = Some (target 0%nat "home").
Proof.
  intros target headers.
  destruct (duplicate_secret_first_registered_wins headers
              (target 0%nat "home") (target 1%nat "work") "same")
    as [Hsel _]; [reflexivity|reflexivity|discriminate|cbn; lia|].
  exact Hsel.
Defined.

(** X6: the handler declines a request exactly when no target is
    registered at its normalized path, and then writes nothing; at a
    path that has targets, any method other than POST is answered 405
    with [Allow: POST] before headers or body are looked at. *)
Theorem handler_routing
    (st : Registry) (pathname method : string)
    (headers : gmap string header_value) (body : ReadResult) :
  let outcome := handleServerChanBotWebhookRequest st pathname method headers body in
  (handled outcome = false <-> targets_at (normalizeWebhookPath pathname) st = [])
  /\ (handled outcome = false -> response outcome = None /\ processing outcome = None)
  /\ (targets_at (normalizeWebhookPath pathname) st <> [] ->
      method <> "POST" ->
      outcome = {| handled := true;
                   response := Some {| statusCode := 405; allow := Some "POST";
                                       sent := "Method Not Allowed" |};
                   processing := None |}).
Proof.
  unfold handleServerChanBotWebhookRequest, targets_at.
  destruct (webhookTargets st !! normalizeWebhookPath pathname)
    as [[|r rest]|] eqn:Hl; cbn [default].
  - repeat split; done.
  - destruct (String.eqb_spec method "POST") as [->|Hm]; cbn [negb].
    + destruct (selectWebhookTarget (r :: rest) headers); [|by repeat split].
      destruct body as [v|err]; [|by repeat split].
      destruct (parseWebhookPayload v); by repeat split.
    + by repeat split.
  - repeat split; done.
Qed.

Lemma handler_routing_witness :
  let only :=
    {| addr := 0;
       obj := {| target_account :=
                   {| accountId := "default"; name := None; enabled := true;
                      tokenSource := TokenConfig;
                      config := {| botToken := Some "token"; chatId := None;
                                   webhookUrl := None; webhookSecret := None;
                                   webhookPath := None; dmPolicy := None;
                                   allowFrom := None; pollingEnabled := Some false;
                                   pollingIntervalMs := Some 3000 |} |};
                 target_config := JObj [];
                 target_botToken := "token";
                 target_path := "/serverchan-bot";
                 target_secret := None |} |} in
  let st := {| next_addr := 1;
               webhookTargets := {[ "/serverchan-bot" := [only] ]} |} in
  statusCode <$> response (handleServerChanBotWebhookRequest
                             st "/serverchan-bot" "GET" ∅ (ReadFailed "empty payload"))
  = Some 405
  /\ handled (handleServerChanBotWebhookRequest
                st "/elsewhere" "POST" ∅ (ReadFailed "empty payload")) = false.
Proof.
  intros only st. split.
  - destruct (handler_routing st "/serverchan-bot" "GET" ∅ (ReadFailed "empty payload"))
      as (_ & _ & H405).
    rewrite H405; [reflexivity|vm_compute; discriminate|discriminate].
  - apply (handler_routing st "/elsewhere" "POST" ∅ (ReadFailed "empty payload")).
    vm_compute. reflexivity.
Defined.

(** ** Registration round trip *)

Section RoundTrip.

Lemma filter_is_other_fresh u (l : list TargetRef) :
  Forall (fun r => (addr r < captured_target u)%nat) l ->
  List.filter (is_other u) l = l.
Proof.
  intros Hall. apply filter_all. eapply List.Forall_impl; [|exact Hall].
  intros r Hr. unfold is_other. apply negb_true_iff, Nat.eqb_neq. cbn in Hr. lia.
Qed.

(** Registering a target and calling its closure at once gives the
    registry's map back. *)
Lemma register_unregister st target :
  registry_invariant st -> addresses_allocated st ->
  webhookTargets (unregister (fst (registerServerChanBotWebhookTarget target st))
                             (snd (registerServerChanBotWebhookTarget target st)))
  = webhookTargets st.
Proof.
  intros Hinv Halloc.
  unfold registerServerChanBotWebhookTarget, unregister.
  cbn [fst snd captured_key captured_target webhookTargets addr].
  set (key := normalizeWebhookPath (target_path target)).
  rewrite lookup_insert_eq. cbn [default id].
  rewrite List.filter_app.
  match goal with
  | |- context [List.filter ?f [?new]] =>
      assert (List.filter f [new] = []) as ->
        by (cbn; unfold is_other; cbn; by rewrite Nat.eqb_refl)
  end.
  rewrite app_nil_r.
  assert (List.filter
            (is_other {| captured_key := key; captured_target := next_addr st |})
            (default [] (webhookTargets st !! key))
          = default [] (webhookTargets st !! key)) as ->.
  { apply filter_is_other_fresh. cbn.
    apply (addresses_allocated_targets_at st key Halloc). }
  destruct (webhookTargets st !! key) as [l|] eqn:Hl; cbn [default].
  - destruct (Hinv _ _ Hl) as [Hne _]. destruct l as [|r l]; [done|].
    cbn. rewrite insert_insert_eq. by apply insert_id.
  - cbn. rewrite delete_insert_eq. by apply delete_id.
Qed.

End RoundTrip.

(** X7: in a registry built by [register] and [unregister] calls,
    registering a target and then calling the closure it returned
    restores the map of targets exactly: the target's path is back to
    what it held before, or absent if it held nothing. *)
Theorem register_then_unregister_restores (ops : list Op) (target : WebhookTarget) :
  let registered := registerServerChanBotWebhookTarget target (run ops) in
  webhookTargets (unregister (fst registered) (snd registered))
  = webhookTargets (run ops).
Proof.
  apply register_unregister;
    [apply registry_invariant_run|apply addresses_allocated_run].
Qed.

(** ** Trimming *)

Section TrimFacts.

Lemma append_cons c s t : String c s ++ t = String c (s ++ t).
Proof. reflexivity. Qed.

Lemma append_empty_l t : "" ++ t = t.
Proof. reflexivity. Qed.

Lemma append_empty_r s : s ++ "" = s.
Proof. induction s as [|c s IH]; [done|]. by rewrite append_cons, IH. Qed.

Lemma append_assoc s1 s2 s3 : (s1 ++ s2) ++ s3 = s1 ++ (s2 ++ s3).
Proof. induction s1 as [|c s1 IH]; [done|]. by rewrite !append_cons, IH. Qed.

Lemma rev_app_append s1 s2 : String.rev_app s1 s2 = String.rev s1 ++ s2.
Proof.
  revert s2. induction s1 as [|c s1 IH]; intros s2; [done|].
  unfold String.rev. cbn [String.rev_app].
  rewrite (IH (String c s2)), (IH (String c "")).
  by rewrite append_assoc, append_cons, append_empty_l.
Qed.

Lemma rev_cons c s : String.rev (String c s) = String.rev s ++ String c "".
Proof. unfold String.rev at 1. cbn [String.rev_app]. apply rev_app_append. Qed.

Lemma rev_append s1 s2 : String.rev (s1 ++ s2) = String.rev s2 ++ String.rev s1.
Proof.
  induction s1 as [|c s1 IH].
  - by rewrite append_empty_l, append_empty_r.
  - by rewrite append_cons, !rev_cons, IH, append_assoc.
Qed.

Lemma rev_involutive s : String.rev (String.rev s) = s.
Proof.
  induction s as [|c s IH]; [done|]. by rewrite rev_cons, rev_append, IH.
Qed.

Lemma rev_empty_inv s : String.rev s = "" -> s = "".
Proof. intros H. by rewrite <- (rev_involutive s), H. Qed.

Lemma trimStart_append s t :
  trimStart (s ++ t) =
  match trimStart s with
  | EmptyString => trimStart t
  | r => r ++ t
  end.
Proof.
  induction s as [|c s IH]; [by rewrite append_empty_l|].
  rewrite append_cons. cbn [trimStart].
  by destruct (is_white_space c).
Qed.

(** [trimEnd], read from the front. *)
Lemma trimEnd_cons c s :
  trimEnd (String c s) =
  if String.eqb (trimEnd s) "" && is_white_space c then ""
  else String c (trimEnd s).
Proof.
  unfold trimEnd. rewrite rev_cons, trimStart_append.
  destruct (trimStart (String.rev s)) as [|d r] eqn:Hr.
  - cbn. by destruct (is_white_space c).
  - rewrite rev_append.
    change (String.rev (String c "")) with (String c "").
    rewrite append_cons, append_empty_l.
    destruct (String.eqb_spec (String.rev (String d r)) "") as [He|_]; [|done].
    by apply rev_empty_inv in He.
Qed.

Lemma trimEnd_idempotent s : trimEnd (trimEnd s) = trimEnd s.
Proof.
  induction s as [|c s IH]; [done|]. rewrite trimEnd_cons.
  destruct (String.eqb (trimEnd s) "" && is_white_space c) eqn:Hc; [done|].
  by rewrite trimEnd_cons, IH, Hc.
Qed.

Lemma trimStart_head s :
  trimStart s = "" \/ exists c r, trimStart s = String c r /\ is_white_space c = false.
Proof.
  induction s as [|c s IH]; [by left|]. cbn.
  destruct (is_white_space c) eqn:Hc; [done|]. right. eauto.
Qed.

Lemma trimStart_fixed c r :
  is_white_space c = false -> trimStart (String c r) = String c r.
Proof. intros H. cbn. by rewrite H. Qed.

Lemma trimEnd_keeps_head c r :
  is_white_space c = false -> trimEnd (String c r) = String c (trimEnd r).
Proof. intros H. by rewrite trimEnd_cons, H, andb_false_r. Qed.

(** Trimming twice is trimming once. *)
Lemma trim_idempotent s : trim (trim s) = trim s.
Proof.
  unfold trim. destruct (trimStart_head s) as [->|(c & r & -> & Hc)]; [done|].
  rewrite (trimEnd_keeps_head _ _ Hc), (trimStart_fixed _ _ Hc).
  by rewrite (trimEnd_keeps_head _ _ Hc), trimEnd_idempotent.
Qed.

(** A string without white space is its own trim. *)
Lemma trimEnd_no_space s :
  Forall (fun c => is_white_space c = false) (list_ascii_of_string s) ->
  trimEnd s = s.
Proof.
  induction s as [|c s IH]; [done|]. cbn [list_ascii_of_string]. intros Hall.
  inversion Hall as [|? ? Hc Hs]; subst.
  by rewrite (trimEnd_keeps_head _ _ Hc), (IH Hs).
Qed.

Lemma trim_no_space s :
  Forall (fun c => is_white_space c = false) (list_ascii_of_string s) ->
  trim s = s.
Proof.
  intros Hall. unfold trim.
  assert (trimStart s = s) as ->; [|by apply trimEnd_no_space].
  destruct s as [|c s]; [done|]. inversion Hall; subst. by apply trimStart_fixed.
Qed.

Lemma trimEnd_append_solid s c :
  is_white_space c = false -> trimEnd (s ++ String c "") = s ++ String c "".
Proof.
  intros Hc. unfold trimEnd. rewrite rev_append.
  change (String.rev (String c "")) with (String c "").
  rewrite append_cons, append_empty_l, (trimStart_fixed _ _ Hc).
  by rewrite rev_cons, rev_involutive.
Qed.

End TrimFacts.

(** ** Spellings of a path *)

Section SpellingFacts.

Lemma trim_fixed_inv s : trim s = s -> trimStart s = s /\ trimEnd s = s.
Proof.
  intros H. unfold trim in H.
  destruct (trimStart_head s) as [He|(c & r & He & Hc)]; rewrite He in H.
  - by subst s.
  - rewrite (trimEnd_keeps_head _ _ Hc) in H. subst s. split.
    + by apply trimStart_fixed.
    + by rewrite (trimEnd_keeps_head _ _ Hc), trimEnd_idempotent.
Qed.

Lemma trim_fixed_head s :
  trim s = s -> s <> "" -> exists c r, s = String c r /\ is_white_space c = false.
Proof.
  intros [Hs _]%trim_fixed_inv Hne.
  destruct (trimStart_head s) as [He|(c & r & He & Hc)]; [congruence|].
  rewrite Hs in He. eauto.
Qed.

Lemma slash_not_space : is_white_space "/" = false.
Proof. reflexivity. Qed.

Lemma prefix_empty s : String.prefix "" s = true.
Proof. by destruct s. Qed.

Lemma startsWith_slash_cons s : startsWith (String "/" s) "/" = true.
Proof.
  unfold startsWith. cbn [String.prefix].
  destruct (Ascii.ascii_dec "/" "/"); [by destruct s|congruence].
Qed.

Lemma trim_slash_cons s : trim s = s -> trim (String "/" s) = String "/" s.
Proof.
  intros [_ He]%trim_fixed_inv. unfold trim.
  rewrite (trimStart_fixed _ _ slash_not_space).
  by rewrite (trimEnd_keeps_head _ _ slash_not_space), He.
Qed.

Lemma trim_append_slash s :
  trim s = s -> s <> "" -> trim (s ++ "/") = s ++ "/".
Proof.
  intros Hs Hne. destruct (trim_fixed_head s Hs Hne) as (c & r & -> & Hc).
  unfold trim. rewrite append_cons, (trimStart_fixed _ _ Hc).
  rewrite <- append_cons. by apply trimEnd_append_solid.
Qed.

Lemma startsWith_slash_head c r r' :
  startsWith (String c r) "/" = startsWith (String c r') "/".
Proof.
  unfold startsWith. cbn [String.prefix].
  destruct (Ascii.ascii_dec "/" c); [|done]. by rewrite !prefix_empty.
Qed.

Lemma endsWith_append_slash s : endsWith (s ++ "/") "/" = true.
Proof.
  unfold endsWith. rewrite rev_append.
  change (String.rev "/") with "/". rewrite append_cons, append_empty_l.
  apply startsWith_slash_cons.
Qed.

Lemma endsWith_slash_cons c s :
  s <> "" -> endsWith (String c s) "/" = endsWith s "/".
Proof.
  intros Hne. unfold endsWith. rewrite (rev_cons c s).
  destruct (String.rev s) as [|d r] eqn:Hr; [by apply rev_empty_inv in Hr|].
  rewrite append_cons. change (String.rev "/") with "/".
  cbn [String.prefix]. destruct (Ascii.ascii_dec "/" d); [|done].
  by rewrite !prefix_empty.
Qed.

Lemma length_append s t :
  String.length (s ++ t) = (String.length s + String.length t)%nat.
Proof. induction s as [|c s IH]; [done|]. rewrite append_cons. cbn. by rewrite IH. Qed.

Lemma substring_0_append s t :
  String.substring 0 (String.length s) (s ++ t) = s.
Proof.
  induction s as [|c s IH]; [by destruct t|].
  rewrite append_cons. cbn [String.length]. by rewrite substring_0_cons, IH.
Qed.

Lemma slice_append_slash s : slice_0_m1 (s ++ "/") = s.
Proof.
  unfold slice_0_m1. rewrite length_append. cbn [String.length].
  replace (String.length s + 1 - 1)%nat with (String.length s) by lia.
  apply substring_0_append.
Qed.

Lemma truthy_string_cons c s : truthy_string (String c s) = true.
Proof. reflexivity. Qed.

(** The normal form of a raw path whose trim begins with a slash and
    ends with one more. *)
Lemma normalize_trailing_slash raw p :
  trim raw = String "/" p ++ "/" -> normalizeWebhookPath raw = String "/" p.
Proof.
  intros Ht. unfold normalizeWebhookPath. rewrite Ht.
  rewrite append_cons at 1. rewrite truthy_string_cons. cbn [negb].
  assert (startsWith (String "/" p ++ "/") "/" = true) as ->.
  { rewrite append_cons. apply startsWith_slash_cons. }
  rewrite endsWith_append_slash, slice_append_slash, length_append.
  cbn [String.length]. rewrite andb_true_r.
  by destruct (String.length p).
Qed.

(** The normal form of a raw path whose trim begins with a slash and
    does not end with one, or is the root. *)
Lemma normalize_plain raw p :
  trim raw = String "/" p ->
  p = "" \/ endsWith (String "/" p) "/" = false ->
  normalizeWebhookPath raw = String "/" p.
Proof.
  intros Ht Hend. unfold normalizeWebhookPath. rewrite Ht, truthy_string_cons.
  cbn [negb].
  assert (startsWith (String "/" p) "/" = true) as ->
    by apply startsWith_slash_cons.
  destruct Hend as [-> | ->]; [done|]. by rewrite andb_false_r.
Qed.

End SpellingFacts.

(** X8: a path segment written bare, with a leading slash, with a
    trailing slash or with both, and with any white space around it,
    normalizes to one and the same key: the segment behind a single
    slash. *)
Theorem normalizeWebhookPath_spellings (seg raw : string) :
  trim seg = seg -> seg <> "" ->
  startsWith seg "/" = false -> endsWith seg "/" = false ->
  trim raw = seg \/ trim raw = "/" ++ seg
  \/ trim raw = seg ++ "/" \/ trim raw = "/" ++ seg ++ "/" ->
  normalizeWebhookPath raw = "/" ++ seg.
Proof.
  intros Hseg Hne Hstart Hend Hraw.
  destruct (trim_fixed_head seg Hseg Hne) as (c & r & Hs & Hc).
  destruct Hraw as [Ht|[Ht|[Ht|Ht]]].
  - unfold normalizeWebhookPath. rewrite Ht, Hs, truthy_string_cons. cbn [negb].
    rewrite <- Hs, Hstart. rewrite append_cons, append_empty_l.
    rewrite (endsWith_slash_cons _ _ Hne), Hend. by rewrite andb_false_r.
  - rewrite append_cons, append_empty_l in Ht.
    rewrite (normalize_plain raw seg Ht); [done|].
    right. by rewrite (endsWith_slash_cons _ _ Hne).
  - unfold normalizeWebhookPath. rewrite Ht.
    assert (truthy_string (seg ++ "/") = true) as ->
      by (by rewrite Hs, append_cons).
    cbn [negb].
    assert (startsWith (seg ++ "/") "/" = false) as ->.
    { rewrite Hs, append_cons. rewrite Hs in Hstart.
      by rewrite (startsWith_slash_head c _ r). }
    rewrite (append_cons "/" "" (seg ++ "/")), append_empty_l.
    rewrite <- (append_cons "/" seg "/").
    rewrite endsWith_append_slash, slice_append_slash, length_append.
    cbn [String.length]. rewrite andb_true_r.
    rewrite Hs. cbn.
    by destruct (String.length r).
  - rewrite (append_cons "/" "" (seg ++ "/")), append_empty_l in Ht.
    rewrite <- (append_cons "/" seg "/") in Ht.
    by rewrite (normalize_trailing_slash raw seg Ht).
Qed.

Lemma normalizeWebhookPath_spellings_witness :
  normalizeWebhookPath "  hook/ " = "/hook"
  /\ normalizeWebhookPath "/hook/" = "/hook"
  /\ normalizeWebhookPath "hook" = "/hook".
Proof.
  split; [|split].
  - apply (normalizeWebhookPath_spellings "hook" "  hook/ ");
      [reflexivity|discriminate|reflexivity|reflexivity|].
    right. right. left. reflexivity.
  - apply (normalizeWebhookPath_spellings "hook" "/hook/");
      [reflexivity|discriminate|reflexivity|reflexivity|].
    right. right. right. reflexivity.
  - apply (normalizeWebhookPath_spellings "hook" "hook");
      [reflexivity|discriminate|reflexivity|reflexivity|].
    left. reflexivity.
Defined.

(** ** Batches, cursor and backoff *)

Section BatchFacts.
Variable onUpdate : ServerChanUpdate -> bool.

Lemma last_cons_default (z : Z) (l : list Z) (d : Z) :
  List.last (z :: l) d = List.last l z.
Proof.
  revert z d. induction l as [|y l IH]; intros z d; [done|].
  change (List.last (z :: y :: l) d) with (List.last (y :: l) d).
  by rewrite (IH y d), (IH y z).
Qed.

Lemma cursor_after_cons offset update rest :
  cursor_after offset (update :: rest)
  = cursor_after (update_id update + 1) rest.
Proof. unfold cursor_after. cbn [List.map]. apply last_cons_default. Qed.

(** The [for ... of] loop in closed form. *)
Lemma for_each_update_closed updates offset :
  for_each_update onUpdate updates offset
  = (cursor_after offset (handed onUpdate updates),
     List.map OnUpdate (handed onUpdate updates),
     negb (forallb onUpdate updates)).
Proof.
  revert offset. induction updates as [|update rest IH]; intros offset; [done|].
  cbn [for_each_update handed forallb].
  destruct (onUpdate update) eqn:Hu.
  - rewrite IH. cbn [andb List.map]. by rewrite cursor_after_cons.
  - cbn. done.
Qed.

Lemma handed_all updates :
  forallb onUpdate updates = true -> handed onUpdate updates = updates.
Proof.
  induction updates as [|update rest IH]; [done|]. cbn.
  intros [-> Hrest]%andb_true_iff. by rewrite IH.
Qed.

Lemma poll_iteration_ok status statusText updates error offset :
  response_ok status = true ->
  poll_iteration onUpdate
    (FetchResolves status statusText
       (Some {| ok := true; result := updates; error := error |})) offset
  = (cursor_after offset (handed onUpdate updates),
     (GetUpdates 30 offset :: List.map OnUpdate (handed onUpdate updates)
        ++ (if forallb onUpdate updates then [] else [ConsoleError; Sleep 5000]))%list).
Proof.
  intros Hok. unfold poll_iteration, serverChanBotGetUpdates. rewrite Hok.
  cbn [negb ok result andb].
  destruct updates as [|update rest]; [done|].
  cbn [List.length Nat.ltb Nat.leb]. rewrite for_each_update_closed.
  by destruct (forallb onUpdate (update :: rest)).
Qed.

(** With safe identifiers the cursor stays a number that is held
    exactly. *)
Lemma cursor_after_safe updates offset :
  Z.abs offset <= MAX_SAFE_INTEGER + 1 ->
  Forall (fun update => safe_integer (update_id update) = true) updates ->
  Z.abs (cursor_after offset (handed onUpdate updates)) <= MAX_SAFE_INTEGER + 1.
Proof.
  revert offset. induction updates as [|update rest IH]; intros offset Hoff Hall;
    [done|].
  inversion Hall as [|? ? Hsafe Hrest]; subst.
  apply Z.leb_le in Hsafe.
  assert (Z.abs (update_id update + 1) <= MAX_SAFE_INTEGER + 1) as Hnext by lia.
  cbn [handed]. destruct (onUpdate update).
  - rewrite cursor_after_cons. by apply IH.
  - by rewrite cursor_after_cons.
Qed.

End BatchFacts.

(** X9: on a 2xx response with [ok] true whose update identifiers are
    safe integers, the updates are handed to [onUpdate] in the order
    received, up to and including the first whose call rejects; the
    cursor ends one past the last update handed over, so a rejected
    update is stepped over, not retried; and the iteration logs and
    backs off only if a call rejected.  When all calls resolve that is
    the whole batch.  From a cursor held exactly, the cursor it leaves
    is held exactly again. *)
Theorem batch_is_handed_in_order
    (onUpdate : ServerChanUpdate -> bool)
    (status : Z) (statusText : string) (updates : list ServerChanUpdate)
    (error : option string) (offset : Z) :
  response_ok status = true ->
  Forall (fun update => safe_integer (update_id update) = true) updates ->
  let outcome :=
    FetchResolves status statusText
      (Some {| ok := true; result := updates; error := error |}) in
  poll_iteration onUpdate outcome offset
  = (cursor_after offset (handed onUpdate updates),
     (GetUpdates 30 offset :: List.map OnUpdate (handed onUpdate updates)
        ++ (if forallb onUpdate updates then [] else [ConsoleError; Sleep 5000]))%list)
  /\ (forallb onUpdate updates = true ->
      poll_iteration onUpdate outcome offset
      = (cursor_after offset updates,
         GetUpdates 30 offset :: List.map OnUpdate updates))
  /\ (Z.abs offset <= MAX_SAFE_INTEGER + 1 ->
      Z.abs (fst (poll_iteration onUpdate outcome offset)) <= MAX_SAFE_INTEGER + 1).
Proof.
  intros Hok Hsafe outcome. split; [by apply poll_iteration_ok|]. split.
  - intros Hall. subst outcome. rewrite (poll_iteration_ok _ _ _ _ _ _ Hok).
    by rewrite (handed_all _ _ Hall), Hall, app_nil_r.
  - intros Hoff. subst outcome. rewrite (poll_iteration_ok _ _ _ _ _ _ Hok).
    cbn [fst]. by apply cursor_after_safe.
Qed.

Lemma batch_is_handed_in_order_witness :
  let update (n : Z) :=
    {| update_id := n;
       message := {| message_id := n; chat_id := Some 42; chat := None;
                     from := None; text := "hi"; date := None |} |} in
  let rejects_8 (u : ServerChanUpdate) := negb (update_id u =? 8) in
  poll_iteration rejects_8
    (FetchResolves 200 "OK"
       (Some {| ok := true; result := [update 7; update 8; update 9];
                error := None |})) 0
  = (9, [GetUpdates 30 0; OnUpdate (update 7); OnUpdate (update 8);
         ConsoleError; Sleep 5000]).
Proof.
  intros update rejects_8.
  destruct (batch_is_handed_in_order rejects_8 200 "OK"
              [update 7; update 8; update 9] None 0 eq_refl) as [Hiter _];
    [by repeat constructor|].
  exact Hiter.
Defined.

(** X10: an iteration moves the cursor only when the fetch came back
    2xx with [ok] true and at least one update; a network failure, an
    undecodable body, a non-2xx status, [ok] false or an empty batch
    leave it where it was. *)
Theorem cursor_moves_only_on_updates
    (onUpdate : ServerChanUpdate -> bool) (outcome : FetchOutcome) (offset : Z) :
  fst (poll_iteration onUpdate outcome offset) <> offset ->
  exists status statusText body,
    outcome = FetchResolves status statusText (Some body)
    /\ response_ok status = true
    /\ ok body = true
    /\ result body <> [].
Proof.
  unfold poll_iteration, serverChanBotGetUpdates.
  destruct outcome as [reason|status statusText [body|]]; try done.
  - destruct (response_ok status) eqn:Hok; cbn [negb]; [|done].
    destruct (ok body) eqn:Hb; cbn [andb]; [|done].
    destruct (result body) as [|u rest] eqn:Hr; [done|].
    intros _. exists status, statusText, body. by rewrite Hr.
  - by destruct (response_ok status).
Qed.

Lemma cursor_moves_only_on_updates_witness :
  let update :=
    {| update_id := 5;
       message := {| message_id := 1; chat_id := Some 42; chat := None;
                     from := None; text := "hi"; date := None |} |} in
  exists status statusText body,
    FetchResolves 200 "OK" (Some {| ok := true; result := [update]; error := None |})
    = FetchResolves status statusText (Some body)
    /\ response_ok status = true /\ ok body = true /\ result body <> [].
Proof.
  intros update.
  apply (cursor_moves_only_on_updates (fun _ => true) _ 0). cbn. lia.
Defined.

(** X11: an iteration logs to the console and sleeps, for 5000 ms and no
    other duration, exactly when something threw inside its [try]
    block: the fetch, the decoding of the body, or a call of
    [onUpdate]. *)
Theorem backoff_exactly_on_throw
    (onUpdate : ServerChanUpdate -> bool) (outcome : FetchOutcome)
    (offset ms : Z) :
  let events := snd (poll_iteration onUpdate outcome offset) in
  (In (Sleep ms) events <-> ms = 5000 /\ iteration_threw onUpdate outcome = true)
  /\ (In ConsoleError events <-> iteration_threw onUpdate outcome = true).
Proof.
  unfold poll_iteration, iteration_threw.
  destruct (serverChanBotGetUpdates outcome) as [err|response].
  - cbn. split; split.
    + intros [H|[H|[H|[]]]]; try discriminate H. by injection H as <-.
    + intros [-> _]. auto.
    + done.
    + auto.
  - destruct (ok response) eqn:Hb; cbn [andb].
    + destruct (result response) as [|u rest] eqn:Hr.
      * cbn. split; split; try done; intros H; try (destruct H as [_ H]; done).
        -- by destruct H as [H|[]].
        -- by destruct H as [H|[]].
      * cbn [List.length Nat.ltb Nat.leb]. rewrite for_each_update_closed.
        cbn [snd]. rewrite <- Hr. clear Hr.
        assert (forall e, (forall v, e <> OnUpdate v) -> e <> GetUpdates 30 offset ->
                  (In e (GetUpdates 30 offset
                           :: List.map OnUpdate (handed onUpdate (result response))
                           ++ (if negb (forallb onUpdate (result response))
                               then on_polling_error else []))%list
                   <-> negb (forallb onUpdate (result response)) = true
                       /\ In e on_polling_error)) as Hin.
        { intros e Hupd Hget. cbn [In]. rewrite List.in_app_iff, List.in_map_iff.
          split.
          - intros [H|[(v & H & _)|H]]; [congruence|by destruct (Hupd v)|].
            destruct (negb (forallb onUpdate (result response))); [done|by destruct H].
          - intros [-> H]. auto. }
        split.
        -- rewrite Hin by done. cbn. split.
           ++ intros [Ht [H|[H|[]]]]; [discriminate H|]. by injection H as <-.
           ++ intros [-> Ht]. auto.
        -- rewrite Hin by done. cbn. split; [by intros [Ht _]|]. auto.
    + cbn. split; split; try done; intros H; try (destruct H as [_ H]; done).
      * by destruct H as [H|[]].
      * by destruct H as [H|[]].
Qed.

(** X12: the loop returns exactly when a loop head finds the signal
    aborted, whatever the fetches did before; and nothing the
    environment offers after that head is fetched or processed. *)
Theorem polling_stops_only_on_abort
    (onUpdate : ServerChanUpdate -> bool) (offset : Z) :
  (forall env,
     (poll_loop onUpdate env offset).1.1 = Returned
     <-> Exists (fun tick => aborted tick = true) env)
  /\ (forall env tick later,
        aborted tick = true ->
        poll_loop onUpdate (env ++ tick :: later) offset
        = poll_loop onUpdate (env ++ [tick]) offset).
Proof.
  split; [intros env; apply poll_loop_returns_iff_aborted|].
  intros env tick later Ha. revert offset.
  induction env as [|head env IH]; intros offset.
  - cbn. by rewrite Ha.
  - cbn [app poll_loop]. destruct (aborted head); [done|].
    destruct (poll_iteration onUpdate (fetch head) offset) as [offset' events].
    by rewrite IH.
Qed.

Lemma polling_stops_only_on_abort_witness :
  let failing := {| aborted := false; fetch := FetchRejects "ECONNRESET" |} in
  let stop := {| aborted := true; fetch := FetchRejects "unused" |} in
  poll_loop (fun _ => true) [failing; failing; stop; failing] 0
  = (Returned, 0,
     [GetUpdates 30 0; ConsoleError; Sleep 5000;
      GetUpdates 30 0; ConsoleError; Sleep 5000]).
Proof.
  intros failing stop.
  destruct (polling_stops_only_on_abort (fun _ => true) 0) as [_ Hcut].
  etransitivity; [exact (Hcut [failing; failing] stop [failing] eq_refl)|].
  reflexivity.
Defined.

(** ** Update processor *)

Section ProcessorFacts.






End ProcessorFacts.



(** X14: the processor drops an update, logging the missing chat
    identifier and doing nothing else, exactly when the update has no
    nested [chat.id], no [chat_id] and no [from.id]. *)
Theorem update_without_chat_is_dropped
    (u : ServerChanUpdate) (now : Z) (account : ResolvedServerChanBotAccount) :
  let id_of (o : option value) :=
    match o with Some v => get "id" v | None => JUndef end in
  processServerChanBotUpdate now u account
  = [LogMissingChatId (accountId account) u]
  <-> is_nullish (id_of (chat (message u))) = true
      /\ chat_id (message u) = None
      /\ is_nullish (id_of (from (message u))) = true.
Proof.
  intros id_of. subst id_of. cbn beta.
  unfold processServerChanBotUpdate, updateChatId.
  destruct (match chat (message u) with Some v => get "id" v | None => JUndef end);
    destruct (chat_id (message u)) as [cid|];
    destruct (match from (message u) with Some v => get "id" v | None => JUndef end);
    cbn [of_number nullish is_nullish];
    (split; [intros H|intros (H1 & H2 & H3)]); try done; try discriminate.
Qed.

(** ** Webhook path of an account and its life cycle *)

Section LifecycleFacts.
Variable URL_pathname : string -> option string.

Lemma normalizeWebhookPath_trim raw :
  normalizeWebhookPath (trim raw) = normalizeWebhookPath raw.
Proof. unfold normalizeWebhookPath. by rewrite trim_idempotent. Qed.

(** What [startAccount] does when it registers. *)
Lemma startAccount_registered account cfg st started unreg :
  startAccount URL_pathname account cfg st = Some started ->
  on_abort started = Some unreg ->
  exists token path,
    botToken (config account) = Some token
    /\ resolveWebhookPath URL_pathname (webhookPath (config account))
                          (webhookUrl (config account)) = Some path
    /\ (unreg, registry_after started)
       = registerServerChanBotWebhookTarget
           {| target_account := account;
              target_config := cfg;
              target_botToken := token;
              target_path := path;
              target_secret :=
                if nonblank (webhookSecret (config account))
                then Some (trim (default "" (webhookSecret (config account))))
                else None |} st.
Proof.
  unfold startAccount.
  destruct (botToken (config account)) as [token|]; [|done].
  destruct (negb (truthy_string token)); [done|].
  destruct (wantsWebhook account); cbn [andb].
  - destruct (resolveWebhookPath _ _ _) as [path|]; cbn [default].
    + destruct (truthy_string path).
      * intros [= <-]. cbn. intros [= <-]. by exists token, path.
      * intros [= <-]. done.
    + intros [= <-]. done.
  - intros [= <-]. done.
Qed.

End LifecycleFacts.

(** X15: the path an account registers under.  An explicit non-blank
    [webhookPath] decides alone, whatever the URL; with neither path nor
    URL it is the fixed [/serverchan-bot]; the derivation fails exactly
    when the path is blank, the URL is not, and the URL does not parse;
    and a derived path always begins with a slash. *)
Theorem resolveWebhookPath_cases
    (URL_pathname : string -> option string) (path url : option string) :
  (nonblank path = true ->
   resolveWebhookPath URL_pathname path url
   = Some (normalizeWebhookPath (default "" path)))
  /\ (nonblank path = false -> nonblank url = false ->
      resolveWebhookPath URL_pathname path url = Some "/serverchan-bot")
  /\ (resolveWebhookPath URL_pathname path url = None
      <-> nonblank path = false /\ nonblank url = true
          /\ URL_pathname (default "" url) = None)
  /\ (forall p, resolveWebhookPath URL_pathname path url = Some p ->
        exists rest, p = String "/" rest).
Proof.
  unfold resolveWebhookPath. repeat split.
  - intros ->. by rewrite normalizeWebhookPath_trim.
  - by intros -> ->.
  - destruct (nonblank path); [done|]. destruct (nonblank url); [|done].
    by destruct (URL_pathname (default "" url)).
  - destruct (nonblank path); [done|]. destruct (nonblank url); [|done].
    by destruct (URL_pathname (default "" url)).
  - destruct (nonblank path); [done|]. destruct (nonblank url); [|done].
    by destruct (URL_pathname (default "" url)).
  - by intros (-> & -> & ->).
  - intros p.
    destruct (nonblank path);
      [intros [= <-]; apply normalizeWebhookPath_slash_head|].
    destruct (nonblank url); [|intros [= <-]; eauto].
    destruct (URL_pathname (default "" url)); [|done].
    intros [= <-]. apply normalizeWebhookPath_slash_head.
Qed.

Lemma resolveWebhookPath_cases_witness :
  let no_url (_ : string) : option string := None in
  resolveWebhookPath no_url (Some " hooks/sc3 ") (Some "not a url") = Some "/hooks/sc3"
  /\ resolveWebhookPath no_url None (Some "  ") = Some "/serverchan-bot"
  /\ resolveWebhookPath no_url (Some "") (Some "example.com/hook") = None.
Proof.
  intros no_url.
  destruct (resolveWebhookPath_cases no_url (Some " hooks/sc3 ") (Some "not a url"))
    as (Hpath & _).
  destruct (resolveWebhookPath_cases no_url None (Some "  ")) as (_ & Hdefault & _).
  destruct (resolveWebhookPath_cases no_url (Some "") (Some "example.com/hook"))
    as (_ & _ & Hnone & _).
  split; [|split].
  - rewrite Hpath; reflexivity.
  - apply Hdefault; reflexivity.
  - apply Hnone. repeat split.
Defined.

(** X16: once [startAccount] has registered an account at a path that
    held no other target, a POST to that path with a well-formed body is
    processed for that account if the account has no secret or the
    header carries its trimmed secret, and is answered 401 otherwise. *)
Theorem started_webhook_is_served
    (URL_pathname : string -> option string)
    (account : ResolvedServerChanBotAccount) (cfg : value) (st : Registry)
    (started : Started) (unreg : Unregister)
    (pathname : string) (headers : gmap string header_value)
    (body : value) (update : ServerChanUpdate) :
  startAccount URL_pathname account cfg st = Some started ->
  on_abort started = Some unreg ->
  targets_at (captured_key unreg) st = [] ->
  normalizeWebhookPath pathname = captured_key unreg ->
  parseWebhookPayload body = Some update ->
  let outcome :=
    handleServerChanBotWebhookRequest (registry_after started) pathname "POST"
      headers (ReadOk body) in
  let secret := trim (default "" (webhookSecret (config account))) in
  if negb (nonblank (webhookSecret (config account)))
     || bool_decide (secretValue headers = Some secret)
  then exists r, processing outcome = Some (update, r)
                 /\ target_account (obj r) = account
                 /\ addr r = captured_target unreg
                 /\ statusCode <$> response outcome = Some 200
  else outcome = {| handled := true;
                    response := Some {| statusCode := 401; allow := None;
                                        sent := "unauthorized" |};
                    processing := None |}.
Proof.
  intros Hstart Habort Hfree Hpath Hparse outcome secret.
  destruct (startAccount_registered _ _ _ _ _ _ Hstart Habort)
    as (token & path & _ & _ & Hreg).
  set (target := {| target_account := account; target_config := cfg;
                    target_botToken := token; target_path := path;
                    target_secret := _ |}) in Hreg.
  assert (unreg = fst (registerServerChanBotWebhookTarget target st)) as Hu
    by (by rewrite <- Hreg).
  assert (registry_after started
          = snd (registerServerChanBotWebhookTarget target st)) as Hst
    by (by rewrite <- Hreg).
  assert (captured_key unreg = normalizeWebhookPath path) as Hkey by (by rewrite Hu).
  pose proof (targets_at_register target st (captured_key unreg)) as Hat.
  rewrite decide_True in Hat by (by rewrite Hkey).
  rewrite Hfree in Hat. cbn [app] in Hat. rewrite <- Hst in Hat.
  set (r := {| addr := next_addr st; obj := _ |}) in Hat.
  assert (webhookTargets (registry_after started) !! normalizeWebhookPath pathname
          = Some [r]) as Hl.
  { rewrite Hpath. unfold targets_at in Hat.
    destruct (webhookTargets (registry_after started) !! captured_key unreg)
      as [l|] eqn:Hl; [|done]. cbn in Hat. by subst l. }
  assert (nonblank (webhookSecret (config account)) = true ->
          secret <> "") as Hnonempty.
  { unfold nonblank, secret.
    destruct (webhookSecret (config account)) as [s|]; [|done]. cbn [default].
    unfold truthy_string. by destruct (String.eqb_spec (trim s) ""). }
  destruct (nonblank (webhookSecret (config account))) eqn:Hnb; cbn [negb orb].
  - assert (target_secret (obj r) = Some secret) as Hsecret
      by (subst r target; cbn; by rewrite ?Hnb).
    assert (no_secret r = false) as Hns.
    { unfold no_secret. rewrite Hsecret.
      by rewrite (truthy_string_nonempty _ (Hnonempty eq_refl)). }
    case_bool_decide as Hv.
    + exists r. subst outcome.
      assert (selectWebhookTarget [r] headers = Some r) as Hsel.
      { unfold selectWebhookTarget. rewrite Hns, Hsecret.
        by rewrite (proj2 (verifyWebhookSecret_true _ _) Hv). }
      rewrite (handle_post_selected _ _ _ _ update [r] r Hl ltac:(done) Hsel Hparse).
      cbn. repeat split; try done. by rewrite Hu.
    + subst outcome. apply (handle_post_unselected _ _ _ _ [r]); try done.
      unfold selectWebhookTarget. rewrite Hns, Hsecret. unfold verifyWebhookSecret.
      by rewrite bool_decide_eq_false_2.
  - assert (no_secret r = true) as Hns
      by (subst r target; unfold no_secret; cbn; by rewrite ?Hnb).
    exists r. subst outcome.
    assert (selectWebhookTarget [r] headers = Some r) as Hsel
      by (unfold selectWebhookTarget; by rewrite Hns).
    rewrite (handle_post_selected _ _ _ _ update [r] r Hl ltac:(done) Hsel Hparse).
    cbn. repeat split; try done. by rewrite Hu.
Qed.

Lemma started_webhook_is_served_witness :
  let account :=
    {| accountId := "work"; name := None; enabled := true;
       tokenSource := TokenConfig;
       config := {| botToken := Some "token"; chatId := None;
                    webhookUrl := None; webhookSecret := Some " s3cret ";
                    webhookPath := Some "hooks/work/"; dmPolicy := None;
                    allowFrom := None; pollingEnabled := None;
                    pollingIntervalMs := Some 3000 |} |} in
  let no_url (_ : string) : option string := None in
  let headers : gmap string header_value := {[ HEADER_LOWER := HStr "s3cret" ]} in
  let body :=
    JObj [("ok", JBool true); ("update_id", JNum 5);
          ("message", JObj [("message_id", JNum 1); ("chat_id", JNum 42);
                            ("text", JStr "hi")])] in
  exists started r update,
    startAccount no_url account (JObj []) empty_registry = Some started
    /\ processing (handleServerChanBotWebhookRequest (registry_after started)
                     "/hooks/work" "POST" headers (ReadOk body))
       = Some (update, r)
    /\ target_account (obj r) = account.
Proof.
  intros account no_url headers body.
  destruct (startAccount no_url account (JObj []) empty_registry)
    as [started|] eqn:Hstart; [|vm_compute in Hstart; discriminate Hstart].
  pose (update := {| update_id := 5;
                     message := {| message_id := 1; chat_id := Some 42;
                                   chat := None; from := None; text := "hi";
                                   date := None |} |}).
  pose (unreg := {| captured_key := "/hooks/work"; captured_target := 0 |}).
  pose proof (started_webhook_is_served no_url account (JObj []) empty_registry
                started unreg "/hooks/work" headers body update Hstart) as Hserved.
  assert (on_abort started = Some unreg) as Habort
    by (vm_compute in Hstart; injection Hstart as <-; reflexivity).
  specialize (Hserved Habort eq_refl eq_refl eq_refl).
  cbn zeta in Hserved.
  replace (negb (nonblank (webhookSecret (config account)))
           || bool_decide (secretValue headers
                           = Some (trim (default "" (webhookSecret (config account))))))
    with true in Hserved by (vm_compute; reflexivity).
  destruct Hserved as (r & Hproc & Hacc & _).
  exists started, r, update. split; [reflexivity|]. split; [exact Hproc|exact Hacc].
Defined.

(** X17: tearing an account down undoes its start: in a registry built
    by [register] and [unregister] calls, calling the closure that
    [startAccount] bound to the abort signal leaves the map of targets
    as it was before the start; and a start that bound no closure did
    not touch the registry. *)
Theorem abort_undoes_start
    (URL_pathname : string -> option string)
    (account : ResolvedServerChanBotAccount) (cfg : value) (ops : list Op)
    (started : Started) :
  startAccount URL_pathname account cfg (run ops) = Some started ->
  match on_abort started with
  | Some unreg =>
      webhookTargets (unregister unreg (registry_after started))
      = webhookTargets (run ops)
  | None => registry_after started = run ops
  end.
Proof.
  intros Hstart. destruct (on_abort started) as [unreg|] eqn:Habort.
  - destruct (startAccount_registered _ _ _ _ _ _ Hstart Habort)
      as (token & path & _ & _ & Hreg).
    set (target := {| target_account := account; target_config := cfg;
                      target_botToken := token; target_path := path;
                      target_secret := _ |}) in Hreg.
    replace unreg with (fst (registerServerChanBotWebhookTarget target (run ops)))
      by (by rewrite <- Hreg).
    replace (registry_after started)
      with (snd (registerServerChanBotWebhookTarget target (run ops)))
      by (by rewrite <- Hreg).
    apply register_unregister;
      [apply registry_invariant_run|apply addresses_allocated_run].
  - revert Hstart Habort. unfold startAccount.
    destruct (botToken (config account)) as [token|]; [|done].
    destruct (negb (truthy_string token)); [done|].
    destruct (wantsWebhook account && _).
    + intros [= <-]. done.
    + intros [= <-]. done.
Qed.

Lemma abort_undoes_start_witness :
  let account :=
    {| accountId := "work"; name := None; enabled := true;
       tokenSource := TokenConfig;
       config := {| botToken := Some "token"; chatId := None;
                    webhookUrl := None; webhookSecret := None;
                    webhookPath := Some "/hooks/work"; dmPolicy := None;
                    allowFrom := None; pollingEnabled := Some false;
                    pollingIntervalMs := Some 3000 |} |} in
  let no_url (_ : string) : option string := None in
  exists started unreg,
    startAccount no_url account (JObj []) (run []) = Some started
    /\ on_abort started = Some unreg
    /\ webhookTargets (unregister unreg (registry_after started)) = ∅.
Proof.
  intros account no_url.
  destruct (startAccount no_url account (JObj []) (run []))
    as [started|] eqn:Hstart; [|vm_compute in Hstart; discriminate Hstart].
  pose proof (abort_undoes_start no_url account (JObj []) [] started Hstart) as Hundo.
  assert (on_abort started
          = Some {| captured_key := "/hooks/work"; captured_target := 0 |}) as Habort
    by (vm_compute in Hstart; injection Hstart as <-; reflexivity).
  rewrite Habort in Hundo.
  exists started, {| captured_key := "/hooks/work"; captured_target := 0 |}.
  split; [reflexivity|]. split; [exact Habort|exact Hundo].
Defined.

(** ** Reading the request body *)

Section BodyFacts.
Variable JSON_parse : string -> string + value.
Variable utf8 : string -> string.

(** Chunks that fit under the ceiling are all collected. *)
Lemma read_events_fitting maxBytes chunks more collected total :
  (total + bytes_of chunks <= maxBytes)%nat ->
  read_events JSON_parse utf8 maxBytes (List.map Data chunks ++ more) collected total
  = read_events JSON_parse utf8 maxBytes more (collected ++ chunks)
      (total + bytes_of chunks).
Proof.
  revert collected total. induction chunks as [|chunk chunks IH];
    intros collected total Hfit.
  - cbn. by rewrite app_nil_r, Nat.add_0_r.
  - cbn [bytes_of List.map app read_events] in *.
    destruct (Nat.ltb_spec maxBytes (total + String.length chunk)) as [Hlt|_]; [lia|].
    rewrite IH by lia. rewrite <- app_assoc. cbn [app]. f_equal. lia.
Qed.

(** Chunks that together exceed the ceiling end the read. *)
Lemma read_events_exceeding maxBytes chunks more collected total :
  (maxBytes < total + bytes_of chunks)%nat ->
  (total <= maxBytes)%nat ->
  read_events JSON_parse utf8 maxBytes (List.map Data chunks ++ more) collected total
  = Some (ReadFailed "payload too large").
Proof.
  revert collected total. induction chunks as [|chunk chunks IH];
    intros collected total Hover Hunder.
  - cbn in Hover. lia.
  - cbn [bytes_of List.map app read_events] in *.
    destruct (Nat.ltb_spec maxBytes (total + String.length chunk)) as [Hlt|Hge]; [done|].
    apply IH; lia.
Qed.

(** A settled promise stays settled. *)
Lemma read_events_settled maxBytes events more collected total r :
  read_events JSON_parse utf8 maxBytes events collected total = Some r ->
  read_events JSON_parse utf8 maxBytes (events ++ more) collected total = Some r.
Proof.
  revert collected total. induction events as [|event events IH];
    intros collected total; [done|].
  destruct event as [chunk| |message]; cbn [app read_events]; try done.
  destruct (_ <? _)%nat; [done|]. apply IH.
Qed.

(** With a target selected, what the handler makes of a failed read. *)
Lemma handle_read_failed st pathname headers targets selected error :
  webhookTargets st !! normalizeWebhookPath pathname = Some targets ->
  selectWebhookTarget targets headers = Some selected ->
  handleServerChanBotWebhookRequest st pathname "POST" headers (ReadFailed error)
  = respond (if String.eqb error "payload too large" then 413 else 400) None error.
Proof.
  intros Hl Hsel. unfold handleServerChanBotWebhookRequest. rewrite Hl.
  destruct targets as [|r rest]; [done|].
  cbn [String.eqb Ascii.eqb Bool.eqb negb andb]. by rewrite Hsel.
Qed.

End BodyFacts.

(** X18: the body ceiling.  As soon as the chunks received add up to
    more than [maxBytes] the read fails with "payload too large",
    whatever the stream does next and before any JSON is parsed, and the
    handler answers 413; chunks adding up to at most [maxBytes], the
    ceiling itself included, are all kept, and at the end of the stream
    their concatenation is what is decoded and parsed. *)
Theorem body_ceiling
    (JSON_parse : string -> string + value) (utf8 : string -> string)
    (maxBytes : nat) (chunks : list string) (more : list StreamEvent) :
  ((maxBytes < bytes_of chunks)%nat ->
   readJsonBody JSON_parse utf8 maxBytes (List.map Data chunks ++ more)
   = Some (ReadFailed "payload too large")
   /\ forall st pathname headers targets selected,
        webhookTargets st !! normalizeWebhookPath pathname = Some targets ->
        selectWebhookTarget targets headers = Some selected ->
        handleServerChanBotWebhookRequest st pathname "POST" headers
          (ReadFailed "payload too large")
        = {| handled := true;
             response := Some {| statusCode := 413; allow := None;
                                 sent := "payload too large" |};
             processing := None |})
  /\ ((bytes_of chunks <= maxBytes)%nat ->
      readJsonBody JSON_parse utf8 maxBytes (List.map Data chunks ++ End :: more)
      = let raw := utf8 (String.concat "" chunks) in
        if negb (truthy_string (trim raw))
        then Some (ReadFailed "empty payload")
        else match JSON_parse raw with
             | inr v => Some (ReadOk v)
             | inl message => Some (ReadFailed message)
             end).
Proof.
  split.
  - intros Hover. split.
    + apply read_events_exceeding; cbn; lia.
    + intros st pathname headers targets selected Hl Hsel.
      by rewrite (handle_read_failed _ _ _ _ _ _ Hl Hsel).
  - intros Hfit. unfold readJsonBody.
    rewrite read_events_fitting by (cbn; lia). reflexivity.
Qed.

Lemma body_ceiling_witness :
  let parse (raw : string) : string + value :=
    if String.eqb raw "{}" then inr (JObj []) else inl "Unexpected token" in
  readJsonBody parse id 2 [Data "{"; Data "}"; End] = Some (ReadOk (JObj []))
  /\ readJsonBody parse id 2 [Data "{"; Data "} "; End]
     = Some (ReadFailed "payload too large").
Proof.
  intros parse. split.
  - apply (body_ceiling parse id 2 ["{"; "}"] []). cbn. lia.
  - apply (body_ceiling parse id 2 ["{"; "} "] [End]). cbn. lia.
Defined.

(** X19: the read settles once.  Whatever the stream emits after the
    promise has resolved changes nothing; a stream error before the end
    fails the read with the error's message, and the handler then
    answers 400 with that message unless the message happens to be
    "payload too large". *)
Theorem body_read_settles_once
    (JSON_parse : string -> string + value) (utf8 : string -> string)
    (maxBytes : nat) (events more : list StreamEvent) (r : ReadResult) :
  readJsonBody JSON_parse utf8 maxBytes events = Some r ->
  readJsonBody JSON_parse utf8 maxBytes (events ++ more) = Some r
  /\ (forall chunks message,
        (bytes_of chunks <= maxBytes)%nat ->
        readJsonBody JSON_parse utf8 maxBytes
          (List.map Data chunks ++ StreamError message :: more)
        = Some (ReadFailed message))
  /\ (forall st pathname headers targets selected message,
        webhookTargets st !! normalizeWebhookPath pathname = Some targets ->
        selectWebhookTarget targets headers = Some selected ->
        message <> "payload too large" ->
        handleServerChanBotWebhookRequest st pathname "POST" headers
          (ReadFailed message)
        = {| handled := true;
             response := Some {| statusCode := 400; allow := None; sent := message |};
             processing := None |}).
Proof.
  intros Hr. split; [by apply read_events_settled|]. split.
  - intros chunks message Hfit. unfold readJsonBody.
    rewrite read_events_fitting by (cbn; lia). reflexivity.
  - intros st pathname headers targets selected message Hl Hsel Hne.
    rewrite (handle_read_failed _ _ _ _ _ _ Hl Hsel).
    by destruct (String.eqb_spec message "payload too large").
Qed.

Lemma body_read_settles_once_witness :
  let parse (raw : string) : string + value := inl "Unexpected token" in
  readJsonBody parse id 8 ([Data "oops"; End] ++ [Data "{}"; End])
  = Some (ReadFailed "Unexpected token").
Proof.
  intros parse.
  apply (body_read_settles_once parse id 8 [Data "oops"; End] [Data "{}"; End]).
  reflexivity.
Defined.

(** ** Targets and allow-list entries *)

Section TargetFacts.

Lemma digit_not_space c : is_digit c = true -> is_white_space c = false.
Proof. destruct c as [[] [] [] [] [] [] [] []]; vm_compute; congruence. Qed.

Lemma digit_lower c : is_digit c = true -> lower_ascii c = c.
Proof. destruct c as [[] [] [] [] [] [] [] []]; vm_compute; congruence. Qed.

Lemma digit_not_s c : is_digit c = true -> c <> "s"%char.
Proof. intros H ->. discriminate H. Qed.

Lemma lower_ascii_idempotent c : lower_ascii (lower_ascii c) = lower_ascii c.
Proof. destruct c as [[] [] [] [] [] [] [] []]; reflexivity. Qed.

Lemma is_white_space_lower c : is_white_space (lower_ascii c) = is_white_space c.
Proof. destruct c as [[] [] [] [] [] [] [] []]; reflexivity. Qed.

Lemma toLowerCase_idempotent s : toLowerCase (toLowerCase s) = toLowerCase s.
Proof.
  induction s as [|c s IH]; [done|]. cbn. by rewrite lower_ascii_idempotent, IH.
Qed.

Lemma toLowerCase_append s t :
  toLowerCase (s ++ t) = toLowerCase s ++ toLowerCase t.
Proof.
  induction s as [|c s IH]; [done|].
  rewrite append_cons. cbn [toLowerCase]. by rewrite append_cons, IH.
Qed.

Lemma toLowerCase_length s : String.length (toLowerCase s) = String.length s.
Proof. induction s as [|c s IH]; [done|]. cbn. by rewrite IH. Qed.

Lemma toLowerCase_rev s : toLowerCase (String.rev s) = String.rev (toLowerCase s).
Proof.
  induction s as [|c s IH]; [done|]. cbn [toLowerCase].
  by rewrite !rev_cons, toLowerCase_append, IH.
Qed.

Lemma toLowerCase_trimStart s :
  toLowerCase (trimStart s) = trimStart (toLowerCase s).
Proof.
  induction s as [|c s IH]; [done|]. cbn [trimStart toLowerCase].
  rewrite is_white_space_lower. by destruct (is_white_space c).
Qed.

Lemma toLowerCase_trim s : toLowerCase (trim s) = trim (toLowerCase s).
Proof.
  unfold trim, trimEnd.
  by rewrite toLowerCase_rev, toLowerCase_trimStart, toLowerCase_rev,
    toLowerCase_trimStart.
Qed.

Lemma toLowerCase_digits s :
  forallb is_digit (list_ascii_of_string s) = true -> toLowerCase s = s.
Proof.
  induction s as [|c s IH]; [done|]. cbn.
  intros [Hc Hs]%andb_true_iff. by rewrite (digit_lower _ Hc), (IH Hs).
Qed.

Lemma digits_no_space s :
  forallb is_digit (list_ascii_of_string s) = true ->
  Forall (fun c => is_white_space c = false) (list_ascii_of_string s).
Proof.
  intros H. apply List.Forall_forall. intros c Hc.
  apply digit_not_space. by apply (proj1 (List.forallb_forall _ _) H).
Qed.

Lemma prefix_append p s : String.prefix p (p ++ s) = true.
Proof.
  induction p as [|c p IH]; [apply prefix_empty|].
  rewrite append_cons. cbn [String.prefix].
  by destruct (Ascii.ascii_dec c c).
Qed.

Lemma substring_all s : String.substring 0 (String.length s) s = s.
Proof. induction s as [|c s IH]; [done|]. cbn. by rewrite IH. Qed.

Lemma drop_chars_append p s : drop_chars (String.length p) (p ++ s) = s.
Proof.
  unfold drop_chars. rewrite length_append.
  replace (String.length p + String.length s - String.length p)%nat
    with (String.length s) by lia.
  induction p as [|c p IH]; [apply substring_all|].
  rewrite append_cons. exact IH.
Qed.

(** A string that starts with a digit carries no channel prefix. *)
Lemma strip_channel_prefix_digit c s :
  is_digit c = true -> strip_channel_prefix (String c s) = String c s.
Proof.
  intros Hc. unfold strip_channel_prefix. cbn [toLowerCase].
  rewrite (digit_lower _ Hc). cbn [String.prefix].
  destruct (Ascii.ascii_dec "s" c) as [<-|_]; [discriminate Hc|done].
Qed.

Lemma strip_channel_prefix_long p s :
  toLowerCase p = "serverchan-bot:" -> strip_channel_prefix (p ++ s) = s.
Proof.
  intros Hp. unfold strip_channel_prefix.
  rewrite toLowerCase_append, Hp, prefix_append.
  replace 15%nat with (String.length p); [apply drop_chars_append|].
  by rewrite <- toLowerCase_length, Hp.
Qed.

Lemma strip_channel_prefix_short p s :
  toLowerCase p = "serverchan:" -> strip_channel_prefix (p ++ s) = s.
Proof.
  intros Hp. unfold strip_channel_prefix.
  rewrite toLowerCase_append, Hp.
  assert (String.prefix "serverchan-bot:" ("serverchan:" ++ toLowerCase s) = false)
    as -> by (by vm_compute).
  rewrite prefix_append.
  replace 11%nat with (String.length p); [apply drop_chars_append|].
  by rewrite <- toLowerCase_length, Hp.
Qed.

Lemma all_digits_cons s :
  all_digits s = true ->
  exists c r, s = String c r /\ is_digit c = true
              /\ forallb is_digit (list_ascii_of_string s) = true.
Proof.
  unfold all_digits. intros [Hne Hall]%andb_true_iff.
  destruct s as [|c r]; [discriminate Hne|].
  exists c, r. split; [done|]. split; [|done].
  cbn in Hall. by apply andb_true_iff in Hall as [? _].
Qed.

(** A digit string is a target as it stands. *)
Lemma normalizeTarget_digits d :
  all_digits d = true -> normalizeTarget d = Some d.
Proof.
  intros Hd. destruct (all_digits_cons _ Hd) as (c & r & -> & Hc & Hall).
  unfold normalizeTarget.
  rewrite (trim_no_space _ (digits_no_space _ Hall)).
  cbn [truthy_string String.eqb negb].
  by rewrite (strip_channel_prefix_digit _ _ Hc), Hd.
Qed.

Lemma lower_prefix_no_space p :
  toLowerCase p = "serverchan-bot:" \/ toLowerCase p = "serverchan:" ->
  Forall (fun c => is_white_space c = false) (list_ascii_of_string p).
Proof.
  intros Hp.
  assert (Forall (fun c => is_white_space c = false)
            (list_ascii_of_string (toLowerCase p))) as Hall
    by (destruct Hp as [-> | ->]; repeat constructor).
  clear Hp. induction p as [|c p IH]; [constructor|].
  cbn in Hall. inversion Hall as [|? ? Hc Hrest]; subst.
  constructor; [by rewrite <- is_white_space_lower|by apply IH].
Qed.

Lemma list_ascii_append s t :
  list_ascii_of_string (s ++ t)
  = (list_ascii_of_string s ++ list_ascii_of_string t)%list.
Proof.
  induction s as [|c s IH]; [done|]. rewrite append_cons. cbn. by rewrite IH.
Qed.

End TargetFacts.

(** X20: what [normalizeTarget] returns is a non-empty string of decimal
    digits, and is stable: normalizing it again returns it unchanged,
    and [looksLikeId] accepts it, alone or as the normalized form of the
    raw input. *)
Theorem normalizeTarget_yields_digits (raw t : string) :
  normalizeTarget raw = Some t ->
  all_digits t = true
  /\ normalizeTarget t = Some t
  /\ looksLikeId t None = true
  /\ looksLikeId raw (Some t) = true.
Proof.
  unfold normalizeTarget.
  destruct (truthy_string (trim raw)); cbn [negb]; [|done].
  destruct (all_digits (strip_channel_prefix (trim raw))) eqn:Hd; [|done].
  intros [= <-]. split; [done|]. split; [by apply normalizeTarget_digits|].
  assert (looksLikeId (strip_channel_prefix (trim raw)) None = true) as Hlooks.
  { destruct (all_digits_cons _ Hd) as (c & r & He & Hc & Hall).
    unfold looksLikeId. cbn [default].
    rewrite (trim_no_space _ (digits_no_space _ Hall)), Hd.
    by rewrite He. }
  split; exact Hlooks.
Qed.

Lemma normalizeTarget_yields_digits_witness :
  normalizeTarget "  ServerChan-Bot:12345 " = Some "12345"
  /\ normalizeTarget "12345" = Some "12345".
Proof.
  assert (normalizeTarget "  ServerChan-Bot:12345 " = Some "12345") as H
    by (vm_compute; reflexivity).
  split; [exact H|].
  apply (normalizeTarget_yields_digits "  ServerChan-Bot:12345 " "12345" H).
Defined.

(** X21: a run of decimal digits is accepted as a target bare or behind
    the prefix [serverchan:] or [serverchan-bot:] in any letter case,
    with any white space around the whole, and the digits are what is
    returned. *)
Theorem normalizeTarget_accepts_prefixed (raw p d : string) :
  all_digits d = true ->
  p = "" \/ toLowerCase p = "serverchan:" \/ toLowerCase p = "serverchan-bot:" ->
  trim raw = p ++ d ->
  normalizeTarget raw = Some d.
Proof.
  intros Hd Hp Hraw. unfold normalizeTarget. rewrite Hraw.
  destruct (all_digits_cons _ Hd) as (c & r & He & Hc & Hall).
  assert (truthy_string (p ++ d) = true) as ->.
  { rewrite He. destruct p; [done|]. by rewrite append_cons. }
  cbn [negb].
  assert (strip_channel_prefix (p ++ d) = d) as ->; [|by rewrite Hd].
  destruct Hp as [-> | [Hp | Hp]].
  - rewrite append_empty_l, He. by apply strip_channel_prefix_digit.
  - by apply strip_channel_prefix_short.
  - by apply strip_channel_prefix_long.
Qed.

Lemma normalizeTarget_accepts_prefixed_witness :
  normalizeTarget " SERVERCHAN:42 " = Some "42".
Proof.
  apply (normalizeTarget_accepts_prefixed " SERVERCHAN:42 " "SERVERCHAN:" "42");
    [reflexivity|right; left; reflexivity|reflexivity].
Defined.

(** X22: every entry [formatAllowFrom] returns is in canonical form:
    free of surrounding white space and equal to its own lower-casing. *)
Theorem formatAllowFrom_canonical (allowFrom : list value) (entry : string) :
  In entry (formatAllowFrom allowFrom) ->
  trim entry = entry /\ toLowerCase entry = entry.
Proof.
  unfold formatAllowFrom.
  intros (y & Hentry & Hy)%List.in_map_iff.
  apply List.in_map_iff in Hy as (x & Hy & _).
  destruct (String.eqb_spec y "*") as [Hstar|Hstar].
  - rewrite <- Hentry, Hstar. by split.
  - rewrite <- Hentry.
    destruct (String.eqb_spec x "*") as [Hx|_]; [congruence|].
    rewrite <- Hy. unfold normalizeAllowEntry. split.
    + by rewrite toLowerCase_trim, trim_idempotent.
    + by rewrite toLowerCase_idempotent.
Qed.

Lemma formatAllowFrom_canonical_witness :
  formatAllowFrom [JStr " ServerChan:Alice "; JNum 42; JStr "  "; JStr "*"]
  = ["alice"; "42"; "*"]
  /\ trim "alice" = "alice" /\ toLowerCase "alice" = "alice".
Proof.
  assert (formatAllowFrom [JStr " ServerChan:Alice "; JNum 42; JStr "  "; JStr "*"]
          = ["alice"; "42"; "*"]) as H by (vm_compute; reflexivity).
  split; [exact H|].
  apply (formatAllowFrom_canonical
           [JStr " ServerChan:Alice "; JNum 42; JStr "  "; JStr "*"]).
  rewrite H. by left.
Defined.

(** ** Sending a reply *)

Section SendFacts.

Lemma pretty_N_char_digit m :
  (m < 10)%N ->
  is_digit (pretty_N_char m) = true /\ digit_value (pretty_N_char m) = Z.of_N m.
Proof.
  intros Hm.
  assert (m = 0 \/ m = 1 \/ m = 2 \/ m = 3 \/ m = 4 \/ m = 5 \/ m = 6
          \/ m = 7 \/ m = 8 \/ m = 9)%N as Hcases by lia.
  repeat (destruct Hcases as [->|Hcases]; [by split|]). subst m. by split.
Qed.

(** [digits_value] reads back what [pretty_N_go] wrote. *)
Lemma digits_value_pretty_N_go x s :
  digits_value 0 (pretty_N_go x s) = digits_value (Z.of_N x) s.
Proof.
  revert s. induction (N.lt_wf_0 x) as [x _ IH]; intros s.
  assert (x = 0 \/ 0 < x)%N as [->|Hpos] by lia.
  - by rewrite pretty_N_go_0.
  - rewrite pretty_N_go_step by done.
    rewrite IH by (by apply N.div_lt).
    destruct (pretty_N_char_digit (x `mod` 10)) as [Hd Hv];
      [by apply N.mod_lt|].
    cbn [digits_value]. rewrite Hd, Hv. f_equal.
    pose proof (N.div_mod x 10 ltac:(done)) as Hdm.
    apply (f_equal Z.of_N) in Hdm. rewrite N2Z.inj_add, N2Z.inj_mul in Hdm.
    change (Z.of_N 10) with 10 in Hdm. lia.
Qed.

Lemma pretty_N_go_head x s :
  (0 < x)%N -> exists c r, pretty_N_go x s = String c r /\ is_digit c = true.
Proof.
  revert s. induction (N.lt_wf_0 x) as [x _ IH]; intros s Hpos.
  rewrite pretty_N_go_step by done.
  destruct (N.eq_0_gt_0_cases (x `div` 10)) as [He|Hdiv].
  - rewrite He, pretty_N_go_0.
    destruct (pretty_N_char_digit (x `mod` 10)) as [Hd _]; [by apply N.mod_lt|].
    eauto.
  - apply IH; [by apply N.div_lt|done].
Qed.

Lemma parseInt_digit_head c r :
  is_digit c = true ->
  parseInt (String c r) = Some (digits_value 0 (String c r)).
Proof.
  intros Hc. unfold parseInt.
  rewrite (trimStart_fixed _ _ (digit_not_space _ Hc)).
  assert (forall A (x y z : A),
            match c with
            | "-"%char => x
            | "+"%char => y
            | _ => z
            end = z) as Hmatch.
  { intros A x y z.
    destruct c as [[] [] [] [] [] [] [] []]; try reflexivity; discriminate Hc. }
  replace (let '(sign, s) :=
             match c with
             | "-"%char => (-1, r)
             | "+"%char => (1, r)
             | _ => (1, String c r)
             end in
           match s with
           | String c0 _ => if is_digit c0 then Some (sign * digits_value 0 s) else None
           | EmptyString => None
           end)
    with (if is_digit c then Some (1 * digits_value 0 (String c r)) else None).
  - rewrite Hc. f_equal. lia.
  - symmetry. destruct c as [[] [] [] [] [] [] [] []]; try reflexivity; discriminate Hc.
Qed.

Lemma parseInt_pretty_positive p : parseInt (pretty p) = Some (Z.pos p).
Proof.
  unfold pretty, pretty_positive, pretty, pretty_N.
  rewrite decide_False by done.
  destruct (pretty_N_go_head (N.pos p) "") as (c & r & He & Hc); [lia|].
  rewrite He, (parseInt_digit_head _ _ Hc), <- He.
  by rewrite digits_value_pretty_N_go.
Qed.

Lemma parseInt_minus c r :
  is_digit c = true ->
  parseInt (String "-" (String c r)) = Some (- digits_value 0 (String c r)).
Proof.
  intros Hc. unfold parseInt. cbn [trimStart].
  change (is_white_space "-") with false. cbn beta iota.
  rewrite Hc. f_equal; lia.
Qed.

(** [parseInt] reads back the decimal form of an integer. *)
Lemma parseInt_to_String n : parseInt (to_String (JNum n)) = Some n.
Proof.
  cbn [to_String]. destruct n as [|p|p].
  - reflexivity.
  - apply parseInt_pretty_positive.
  - pose proof (parseInt_pretty_positive p) as Hp.
    unfold pretty at 1. unfold pretty_Z.
    unfold pretty, pretty_positive, pretty, pretty_N in *.
    rewrite decide_False in * by done.
    destruct (pretty_N_go_head (N.pos p) "") as (c & r & He & Hc); [lia|].
    rewrite He in *. rewrite append_cons, append_empty_l.
    rewrite (parseInt_digit_head _ _ Hc) in Hp.
    assert (digits_value 0 (String c r) = Z.pos p) as Hv by congruence.
    by rewrite (parseInt_minus _ _ Hc), Hv.
Qed.

End SendFacts.

(** X23: [serverChanBotSendMessage] posts the same request whether the
    chat is given as a safe integer or as that number's decimal string, so the
    chat identifier the processor turned into a string reaches the API
    as the original number; a string without a leading digit (after
    white space and a sign) is posted as [chat_id: null]. *)
Theorem sendMessage_body_string_or_number
    (n : Z) (text : string) (options : option SendMessageOptions) :
  Z.abs n <= MAX_SAFE_INTEGER ->
  sendMessage_body (inr (to_String (JNum n))) text options
  = sendMessage_body (inl n) text options
  /\ get "chat_id" (sendMessage_body (inl n) text options) = JNum n
  /\ (forall s, parseInt s = None ->
        get "chat_id" (sendMessage_body (inr s) text options) = JNull).
Proof.
  intros _. unfold sendMessage_body. rewrite parseInt_to_String.
  repeat split. intros s ->. reflexivity.
Qed.

Lemma sendMessage_body_string_or_number_witness :
  get "chat_id" (sendMessage_body (inr "-42") "hi" None) = JNum (-42)
  /\ get "chat_id" (sendMessage_body (inr "room") "hi" None) = JNull.
Proof.
  destruct (sendMessage_body_string_or_number (-42) "hi" None)
    as (Heq & Hid & Hnan); [by vm_compute|].
  split.
  - change "-42" with (to_String (JNum (-42))). by rewrite Heq.
  - apply Hnan. reflexivity.
Defined.

(** X24: the delivery callback never sends a reply that is empty or all
    white space; any other reply is sent exactly once and unchanged, to
    the account's configured chat (trimmed) when that is non-blank and to
    the chat of the update otherwise; and the outbound time is recorded
    exactly when that send came back with [ok] true. *)
Theorem deliver_addressing
    (account : ResolvedServerChanBotAccount) (token chat : string) (now : Z)
    (sent : string + ServerChanSendResult) (reply : option string) :
  let text := default "" reply in
  let target :=
    if nonblank (chatId (config account))
    then trim (default "" (chatId (config account)))
    else chat in
  let effects := deliver account token chat now sent reply in
  (truthy_string (trim text) = false -> effects = [])
  /\ (truthy_string (trim text) = true ->
      exists after,
        effects = SendMessage token target text :: after
        /\ (forall t c x, ~ In (SendMessage t c x) after)
        /\ (In (StatusOutbound now) after
            <-> exists result, sent = inr result /\ send_ok result = true)).
Proof.
  intros text target effects. subst text target effects. unfold deliver.
  assert ((match reply with
           | Some t => if truthy_string t then t else ""
           | None => ""
           end) = default "" reply) as ->.
  { destruct reply as [t|]; [|done]. cbn.
    unfold truthy_string. by destruct (String.eqb_spec t ""). }
  split.
  - by intros ->.
  - intros ->. cbn [negb].
    assert ((match chatId (config account) with
             | Some configured =>
                 if truthy_string (trim configured) then trim configured else chat
             | None => chat
             end)
            = (if nonblank (chatId (config account))
               then trim (default "" (chatId (config account)))
               else chat)) as ->
      by (by destruct (chatId (config account))).
    eexists. split; [reflexivity|].
    destruct sent as [err|result]; [|destruct (send_ok result) eqn:Hok]; cbn [negb].
    + split; [by intros t c x [H|[]]|].
      split; [by intros [H|[]]|]. by intros (result & [=] & _).
    + split; [by intros t c x [H|[]]|].
      split; [eauto|]. intros _. by left.
    + split; [by intros t c x [H|[]]|].
      split; [by intros [H|[]]|]. intros (r & [= <-] & Hr). congruence.
Qed.

Lemma deliver_addressing_witness :
  let account :=
    {| accountId := "default"; name := None; enabled := true;
       tokenSource := TokenConfig;
       config := {| botToken := Some "token"; chatId := Some " 7 ";
                    webhookUrl := None; webhookSecret := None;
                    webhookPath := None; dmPolicy := None; allowFrom := None;
                    pollingEnabled := None; pollingIntervalMs := Some 3000 |} |} in
  let ok_result := {| send_ok := true; send_message_id := Some 9; send_error := None |} in
  deliver account "token" "42" 1000 (inr ok_result) (Some "   ") = []
  /\ exists after,
       deliver account "token" "42" 1000 (inr ok_result) (Some " hello") 
       = SendMessage "token" "7" " hello" :: after.
Proof.
  intros account ok_result. split.
  - apply (deliver_addressing account "token" "42" 1000 (inr ok_result) (Some "   ")).
    reflexivity.
  - destruct (deliver_addressing account "token" "42" 1000 (inr ok_result)
                (Some " hello")) as [_ Hsend].
    destruct (Hsend eq_refl) as (after & Heq & _). exists after. exact Heq.
Defined.

(** ** Targets that reach the API, and the accounts listed *)

Section ReachFacts.

Lemma digit_value_range c : is_digit c = true -> 0 <= digit_value c <= 9.
Proof.
  unfold is_digit, digit_value. cbn zeta.
  intros [H1%Nat.leb_le H2%Nat.leb_le]%andb_true_iff. lia.
Qed.

(** A run of digits denotes a number below the next power of ten. *)
Lemma digits_value_bounds s acc :
  forallb is_digit (list_ascii_of_string s) = true ->
  0 <= acc ->
  0 <= digits_value acc s < (acc + 1) * 10 ^ Z.of_nat (String.length s).
Proof.
  revert acc. induction s as [|c r IH]; intros acc Hall Hacc.
  - cbn. lia.
  - cbn [list_ascii_of_string forallb] in Hall.
    apply andb_true_iff in Hall as [Hc Hr].
    cbn [digits_value String.length]. rewrite Hc.
    pose proof (digit_value_range c Hc) as Hd.
    destruct (IH (acc * 10 + digit_value c) Hr ltac:(lia)) as [Hlo Hhi].
    split; [done|].
    rewrite Nat2Z.inj_succ, Z.pow_succ_r by lia.
    assert (0 < 10 ^ Z.of_nat (String.length r)) by (apply Z.pow_pos_nonneg; lia).
    nia.
Qed.

Lemma normalizeTarget_inv raw t :
  normalizeTarget raw = Some t -> all_digits t = true.
Proof.
  unfold normalizeTarget.
  destruct (negb (truthy_string (trim raw))); [done|].
  destruct (all_digits (strip_channel_prefix (trim raw))) eqn:Hd; [|done].
  by intros [= <-].
Qed.

Lemma falsy_has_no_accounts v :
  truthy v = false -> truthy (get "accounts" v) = false.
Proof. by destruct v. Qed.

End ReachFacts.

(** X25: a target that [normalizeTarget] accepts, of at most fifteen
    digits, is posted by [serverChanBotSendMessage] with a numeric
    [chat_id]: the non-negative safe integer its digits denote, never
    [null]. *)
Theorem accepted_target_posted_as_number
    (raw t text : string) (options : option SendMessageOptions) :
  normalizeTarget raw = Some t ->
  (String.length t <= 15)%nat ->
  exists n,
    0 <= n <= MAX_SAFE_INTEGER
    /\ parseInt t = Some n
    /\ get "chat_id" (sendMessage_body (inr t) text options) = JNum n.
Proof.
  intros Hnorm%normalizeTarget_inv Hlen.
  destruct (all_digits_cons t Hnorm) as (c & r & Ht & Hc & Hall).
  pose proof (digits_value_bounds t 0 Hall ltac:(done)) as [Hlo Hhi].
  assert (parseInt t = Some (digits_value 0 t)) as Hparse
    by (rewrite Ht; by apply parseInt_digit_head).
  exists (digits_value 0 t). split; [|split; [done|]].
  - split; [done|].
    assert (10 ^ Z.of_nat (String.length t) <= 10 ^ 15)
      by (apply Z.pow_le_mono_r; lia).
    unfold MAX_SAFE_INTEGER.
    assert (10 ^ 15 <= 2 ^ 53 - 1) by (by vm_compute).
    lia.
  - unfold sendMessage_body. by rewrite Hparse.
Qed.

Lemma accepted_target_posted_as_number_witness :
  exists n,
    0 <= n <= MAX_SAFE_INTEGER
    /\ parseInt "007" = Some n
    /\ get "chat_id" (sendMessage_body (inr "007") "hi" None) = JNum n.
Proof.
  apply (accepted_target_posted_as_number " serverchan:007" "007" "hi" None).
  - reflexivity.
  - cbn. lia.
Defined.

(** X26: what [listServerChanBotAccountIds] lists.  An identifier is
    listed exactly when it is the default one, or a key of the
    [accounts] object of the section that is not blank; nothing else is
    ever listed, and no identifier is listed twice. *)
Theorem listed_account_ids (DEFAULT_ACCOUNT_ID : string) (cfg : value) (id : string) :
  let accounts := get "accounts" (get "serverchan-bot" (get "channels" cfg)) in
  (In id (listServerChanBotAccountIds DEFAULT_ACCOUNT_ID cfg)
   <-> id = DEFAULT_ACCOUNT_ID
       \/ (truthy accounts = true /\ typeof accounts = TObject
           /\ In id (keys accounts) /\ truthy_string (trim id) = true))
  /\ (List.NoDup (keys accounts)
      -> List.NoDup (listServerChanBotAccountIds DEFAULT_ACCOUNT_ID cfg)).
Proof.
  intros accounts. unfold listServerChanBotAccountIds. fold accounts.
  set (ids := List.filter (fun id => truthy_string (trim id)) (keys accounts)).
  assert (forall x, In x ids <-> In x (keys accounts) /\ truthy_string (trim x) = true)
    as Hids
    by (intros x;
        exact (List.filter_In (fun i => truthy_string (trim i)) x (keys accounts))).
  assert (forall x, In x [DEFAULT_ACCOUNT_ID] <-> x = DEFAULT_ACCOUNT_ID)
    as Hone by (intros x; cbn; intuition).
  assert (List.NoDup [DEFAULT_ACCOUNT_ID]) as Hnd1
    by (constructor; [by intros []|constructor]).
  destruct (truthy (get "serverchan-bot" (get "channels" cfg))) eqn:Hsec; cbn [negb].
  2:{ split; [|done]. rewrite Hone.
      pose proof (falsy_has_no_accounts _ Hsec) as Hacc. fold accounts in Hacc.
      split; [by left|]. intros [Hd|(Ht & _)]; [done|congruence]. }
  destruct (truthy accounts) eqn:Hacc; cbn [negb orb].
  2:{ split; [|done]. rewrite Hone.
      split; [by left|]. by intros [Hd|(Ht & _)]. }
  case_bool_decide as Hty; cbn [negb].
  2:{ split; [|done]. rewrite Hone.
      split; [by left|]. by intros [Hd|(_ & Ht & _)]. }
  destruct (List.length ids =? 0)%nat eqn:Hlen.
  { apply Nat.eqb_eq in Hlen. apply length_zero_iff_nil in Hlen.
    split; [|done]. rewrite Hone.
    split; [by left|]. intros [Hd|(_ & _ & Hin & Hnb)]; [done|].
    assert (In id ids) as Hin' by (by apply Hids). rewrite Hlen in Hin'. done. }
  destruct (existsb (String.eqb DEFAULT_ACCOUNT_ID) ids) eqn:Hex; cbn [negb].
  - apply List.existsb_exists in Hex as (d & Hd & ->%String.eqb_eq).
    split.
    + rewrite Hids. split; [tauto|].
      intros [->|(_ & _ & Hin & Hnb)]; [by apply Hids|done].
    + intros Hnd. by apply List.NoDup_filter.
  - split.
    + cbn [In]. rewrite Hids. split.
      * intros [<-|[Hin Hnb]]; [by left|right; done].
      * intros [->|(_ & _ & Hin & Hnb)]; [by left|by right].
    + intros Hnd. constructor; [|by apply List.NoDup_filter].
      intros Hin.
      assert (existsb (String.eqb DEFAULT_ACCOUNT_ID) ids = true) as Hyes
        by (apply List.existsb_exists; exists DEFAULT_ACCOUNT_ID;
            split; [done|apply String.eqb_refl]).
      congruence.
Qed.

Lemma listed_account_ids_witness :
  let cfg :=
    JObj [("channels",
           JObj [("serverchan-bot",
                  JObj [("accounts",
                         JObj [("work", JObj []); (" ", JObj []);
                               ("home", JObj [])])])])] in
  In "home" (listServerChanBotAccountIds "default" cfg)
  /\ ~ In " " (listServerChanBotAccountIds "default" cfg)
  /\ List.NoDup (listServerChanBotAccountIds "default" cfg).
Proof.
  intros cfg.
  split; [|split].
  - apply (listed_account_ids "default" cfg "home"). right.
    repeat split; cbn; tauto.
  - intros Hin. apply (listed_account_ids "default" cfg " ") in Hin.
    destruct Hin as [Hd|(_ & _ & _ & Hnb)]; discriminate.
  - apply (listed_account_ids "default" cfg "").
    cbn. repeat (constructor; [cbn; intuition discriminate|]). constructor.
Defined.
